(** * Pulser time-correction calculator: a shallow embedding

    The development follows [time_correction_calculator.py]:

    - [pad_times]                   (EarliestHitExtractor), one event;
    - [pulser_results]              (RunAggregator), one run;
    - [time_correction_calculator]  (MultiRunCalibrator), a range of runs.

    and, of [simulations/sim_utils.py], [state_shape],
    [max_reaction_excitation_energy] and the point-cloud writer
    [SpyralWriter_e20009] (module [Simulation]).

    Conventions of the embedding.

    - A float64 value is an exact rational ([Q]).  Python's [int(x)] is
      truncation toward zero, [int].  Rounding is not modelled: sums,
      means and quotients are those of the rationals.
    - A NumPy array indexed by channel is a [list]; reading and writing
      go through stdpp's lookup and insert, after the index has been
      normalised the way NumPy does it ([index]).  An operation that
      NumPy applies along the channel axis is a map over that list.
    - A raised exception is [None] in the [option] monad.  In
      [pad_times], which Numba compiles without bounds checks, [None]
      marks an access outside the table, for which no result is
      defined.
    - A masked array is a list of [option Q]: [None] is a masked entry.
    - A dictionary, the attributes of an HDF5 group or dataset and the
      datasets of a group are stdpp [gmap]s. *)

From Stdlib Require Import ZArith QArith Qabs Lia Lqa.
From stdpp Require Import base option list gmap strings.

Set Default Proof Using "Type".

(** ** Numbers *)

(** [int(x)] on a finite float: the integer part, rounding toward zero. *)
Definition int (x : Q) : Z := Z.quot (Qnum x) (Zpos (Qden x)).

Definition Qltb (x y : Q) : bool := negb (Qle_bool y x).

(** A three-dimensional array whose middle or last axis is filled slice by
    slice ([a[:, idx, :] = ...], [a[:, :, idx] = ...]) is kept as the list
    of these slices.  [rows n slices] is the same array read along its
    first axis, of length [n]: entry [c] is [a[c]], the entries of index
    [c] of all the slices, in slice order. *)
Fixpoint rows {A} (n : nat) (slices : list (list A)) : list (list A) :=
  match slices with
  | [] => replicate n []
  | s :: slices' => zip_with cons s (rows n slices')
  end.

(** ** EarliestHitExtractor *)

Module Extractor.

Definition NUM_CHANNELS : Z := 10240.

(** One row of a point cloud.  Spyral's rows are eight floats wide; the
    extractor reads columns 3 (amplitude), 5 (pad id) and 6 (time bucket). *)
Record point := Point { point3 : Q; point5 : Q; point6 : Q }.

(** One row of [event_results]; column schema (time bucket, amplitude, hit). *)
Record stat := Stat { tb_of : Q; amp_of : Q; hit_of : Q }.

Definition zeros : stat := Stat 0 0 0.

(** NumPy index normalisation on an axis of length [n]: [0 <= i < n] is
    taken as it is, [-n <= i < 0] counts from the end.  Anything else
    lies outside the axis: NumPy raises an IndexError, while code compiled
    by Numba, as [pad_times] is, does not check the index, and what such
    an access reads or writes is not defined.  [None] stands for both:
    the embedding defines no result there. *)
Definition index (n : nat) (i : Z) : option nat :=
  if decide (0 ≤ i < Z.of_nat n)%Z then Some (Z.to_nat i)
  else if decide (- Z.of_nat n ≤ i < 0)%Z then Some (Z.to_nat (i + Z.of_nat n))
  else None.

(** The body of [for point in pc]. *)
Definition pad_step (event_results : list stat) (p : point) : option (list stat) :=
  let pad_id := int (point5 p) in
  let tb := int (point6 p) in
  let amp := point3 p in
  i ← index (length event_results) pad_id;
  r ← event_results !! i;
  if Qeq_bool (tb_of r) 0 then
    Some (<[i := Stat (inject_Z tb) amp 1]> event_results)
  else if Qltb (inject_Z tb) (tb_of r) then
    Some (<[i := Stat (inject_Z tb) amp (hit_of r)]> event_results)
  else Some event_results.

Fixpoint pad_loop (event_results : list stat) (pc : list point) : option (list stat) :=
  match pc with
  | [] => Some event_results
  | p :: pc' => er ← pad_step event_results p; pad_loop er pc'
  end.

Definition pad_times (pc : list point) : option (list stat) :=
  pad_loop (replicate (Z.to_nat NUM_CHANNELS) zeros) pc.

(** What the loop body does to the row [r] of the point's own channel:
    the two branches of [pad_step], row-wise. *)
Definition merge (r : stat) (p : point) : stat :=
  let tb := int (point6 p) in
  if Qeq_bool (tb_of r) 0 then Stat (inject_Z tb) (point3 p) 1
  else if Qltb (inject_Z tb) (tb_of r) then Stat (inject_Z tb) (point3 p) (hit_of r)
  else r.

(** The point with its pad id and time bucket replaced by their integer
    parts. *)
Definition truncated (p : point) : point :=
  Point (point3 p) (inject_Z (int (point5 p))) (inject_Z (int (point6 p))).

(** The channel a point is filed under, and the truncated time buckets of
    the points filed under channel [c], in cloud order. *)
Definition channel_of (p : point) : option nat :=
  index (Z.to_nat NUM_CHANNELS) (int (point5 p)).

Definition on_channel (c : nat) (p : point) : bool :=
  bool_decide (channel_of p = Some c).

Definition channel_tbs (pc : list point) (c : nat) : list Z :=
  (fun p => int (point6 p)) <$> filter (fun p => on_channel c p = true) pc.

(** The row recorded for channel [c]. *)
Definition recorded (pc : list point) (c : nat) : option stat :=
  er ← pad_times pc; er !! c.

(** Small clouds used below; a point is written (amplitude, pad id, time
    bucket). *)
Definition cloud_zero_then_seven : list point := [Point 5 0 0; Point 9 0 7].
Definition cloud_tie_at_zero : list point := [Point 5 0 0; Point 9 0 0].
Definition cloud_last_pad : list point := [Point 5 (-1) 7].

End Extractor.

(** ** RunAggregator *)

Module Aggregator.
Import Extractor.

(** What the run-store holds for one run: the [cloud] group of the HDF5
    file with its two attributes, and the dataset [cloud_<event>] of every
    event that has one. *)
Record run_file := RunFile {
  min_event : Z;
  max_event : Z;
  cloud : Z -> option (list point)
}.

Definition num_events (f : run_file) : Z := (max_event f - min_event f + 1)%Z.

Definition Qsum (l : list Q) : Q := foldr Qplus 0%Q l.

(** [np.mean] of a row that is not empty.  (Of an empty row, that of a
    run without events, NumPy yields nan, which a table of rationals
    cannot hold: such runs are outside the embedding.) *)
Definition mean (l : list Q) : Q := (Qsum l / inject_Z (Z.of_nat (length l)))%Q.

(** *** Masked-array arithmetic ([numpy.ma])

    A masked operand masks the result; a result outside the domain of the
    operation (a division by zero, a power that is not finite, the square
    root of a negative number) is masked as well instead of being
    reported. *)

Definition ma_add (a b : option Q) : option Q := x ← a; y ← b; Some (x + y)%Q.
Definition ma_sub (a b : option Q) : option Q := x ← a; y ← b; Some (x - y)%Q.
Definition ma_mul (a b : option Q) : option Q := x ← a; y ← b; Some (x * y)%Q.

Definition ma_div (a b : option Q) : option Q :=
  x ← a; y ← b; if Qeq_bool y 0 then None else Some (x / y)%Q.

Definition ma_power (a : option Q) (k : Z) : option Q :=
  x ← a; if (k <? 0)%Z && Qeq_bool x 0 then None else Some (x ^ k)%Q.

(** [np.ma.sum]: the sum of the entries that are not masked, and masked
    when there is none. *)
Definition ma_sum (l : list (option Q)) : option Q :=
  match omap id l with
  | [] => None
  | xs => Some (Qsum xs)
  end.

(** [np.ma.average a weights]: an entry counts when neither it nor its
    weight is masked. *)
Definition ma_average (a weights : list (option Q)) : option Q :=
  let wgt := zip_with (fun x w => _ ← x; w) a weights in
  ma_div (ma_sum (zip_with ma_mul a wgt)) (ma_sum wgt).

Definition filled (fill_value : Q) (a : option Q) : Q := default fill_value a.

(** *** The statistics of one run *)

(** The slice [run_results[:, idx, :]] after the loop body for [idx]: the
    zeros it was created with when the event has no cloud, the extractor's
    table otherwise. *)
Definition event_slice (f : run_file) (idx : Z) : option (list stat) :=
  match cloud f (min_event f + idx) with
  | None => Some (replicate (Z.to_nat NUM_CHANNELS) zeros)
  | Some pc => pad_times pc
  end.

(** [run_results], kept as the list of its event slices: entry [idx] is
    [run_results[:, idx, :]].  A negative [num_events] makes [np.zeros]
    raise. *)
Definition run_results (f : run_file) : option (list (list stat)) :=
  if decide (num_events f < 0)%Z then None
  else mapM (event_slice f) (seqZ 0 (num_events f)).

(** A slice of [run_results] is a full table whose hit flags are 0 or 1. *)
Definition table (er : list stat) : Prop :=
  length er = Z.to_nat NUM_CHANNELS ∧
  ∀ c r, er !! c = Some r → hit_of r = 0%Q ∨ hit_of r = 1%Q.

(** [run_results[c, :, :]], the statistics of channel [c] event by event. *)
Definition channel_row (rr : list (list stat)) (c : nat) : list stat :=
  (fun er => default zeros (er !! c)) <$> rr.

(** [np.sum(run_results[:, :, 2], axis=1) < 0.1 * num_events], for the row
    of one channel.  (The float product [0.1 * n] is [n/10] rounded;
    against an integer-valued count the comparison comes out as over the
    rationals.) *)
Definition mask (num_events : Z) (row : list stat) : bool :=
  Qltb (Qsum (hit_of <$> row)) ((1 # 10) * inject_Z num_events).

(** The number of events in which the channel of [row] has hit flag 1. *)
Definition hit_count (row : list stat) : nat :=
  length (filter (fun r => Qeq_bool (hit_of r) 1 = true) row).

Section WithSqrt.

(** [np.sqrt] on a finite non-negative float. *)
Variable sqrt : Q -> Q.

Definition ma_sqrt (a : option Q) : option Q :=
  x ← a; if Qltb x 0 then None else Some (sqrt x).

(** [scipy.stats.sem] of a row (ddof = 1): the sample standard deviation
    over the square root of the row's length.  For a row of fewer than two
    values SciPy yields nan; the only consumers, [pad_tb_err**-2] and
    [pad_tb_err**2], are [np.ma.power], which masks a nan, so that nan is
    kept as a masked entry from the start. *)
Definition sem (l : list Q) : option Q :=
  let n := inject_Z (Z.of_nat (length l)) in
  if decide (length l ≤ 1)%nat then None
  else Some (sqrt (Qsum ((fun x => (x - mean l) ^ 2) <$> l) / (n - 1))
             / sqrt n)%Q.

(** [np.ma.mean(pad_tb_ma, axis=1)], for the row of one channel: the mask
    is the same along a row, so a row is averaged whole or masked whole. *)
Definition pad_tb_avg (num_events : Z) (row : list stat) : option Q :=
  if mask num_events row then None
  else ma_div (Some (Qsum (tb_of <$> row)))
              (Some (inject_Z (Z.of_nat (length row)))).

Definition pad_tb_err (num_events : Z) (row : list stat) : option Q :=
  if mask num_events row then None else sem (tb_of <$> row).

(** [pad_tb_err**-2 / np.ma.sum(pad_tb_err**-2)] *)
Definition pad_tb_weights (err : list (option Q)) : list (option Q) :=
  let inv := (fun e => ma_power e (-2)) <$> err in
  let total := ma_sum inv in
  (fun w => ma_div w total) <$> inv.

Definition run_tb_avg (avg err : list (option Q)) : option Q :=
  ma_average avg (pad_tb_weights err).

Definition run_tb_err (err : list (option Q)) : option Q :=
  ma_sqrt (ma_div (Some 1%Q) (ma_sum ((fun e => ma_power e (-2)) <$> err))).

(** Everything after the event loop: from [run_results] to the
    [np.column_stack] that is returned, one triple per channel. *)
Definition reduce (num_events : Z) (rr : list (list stat)) : list (Q * Q * Q) :=
  let pads := rows (Z.to_nat NUM_CHANNELS) rr in
  let avg := pad_tb_avg num_events <$> pads in
  let err := pad_tb_err num_events <$> pads in
  let r_avg := run_tb_avg avg err in
  let r_err := run_tb_err err in
  (fun row =>
     let tb_factors := ma_sub r_avg (pad_tb_avg num_events row) in
     let tb_factors_err :=
       ma_sqrt (ma_add (ma_power r_err 2)
                       (ma_power (pad_tb_err num_events row) 2)) in
     let pad_amp_avg :=
       if mask num_events row then 0%Q else mean (amp_of <$> row) in
     (filled 0 tb_factors, filled 0 tb_factors_err, pad_amp_avg)) <$> pads.

(** [pulser_results].  The first component is what was printed (the runs
    reported as not found); in the second, the outer [None] is an
    exception and the inner one is Python's [None], returned when the
    point-cloud file cannot be opened. *)
Definition pulser_results (workspace : Z -> option run_file) (run : Z)
  : list Z * option (option (list (Q * Q * Q))) :=
  match workspace run with
  | None => ([run], Some None)
  | Some f =>
      ([], rr ← run_results f; Some (Some (reduce (num_events f) rr)))
  end.

End WithSqrt.

End Aggregator.

(** ** MultiRunCalibrator *)

Module Calibrator.
Import Extractor Aggregator.

(** The cells of [results] and of [fit_results] are floats that may have
    left the rationals: a missing run leaves nan behind, and a division
    by zero leaves an infinity (NumPy warns and carries on). *)
Inductive fl := Fin (q : Q) | Inf | NaN.

Definition fadd (a b : fl) : fl :=
  match a, b with
  | NaN, _ | _, NaN => NaN
  | Inf, _ | _, Inf => Inf
  | Fin x, Fin y => Fin (x + y)
  end.

(** [np.sum] of a row. *)
Definition fsum (l : list fl) : fl := foldr fadd (Fin 0) l.

(** [x == 0.0]; nan compares unequal to everything. *)
Definition feq0 (a : fl) : bool :=
  match a with Fin x => Qeq_bool x 0 | _ => false end.

(** [1.0 / x] *)
Definition frecip (a : fl) : fl :=
  match a with
  | Fin x => if Qeq_bool x 0 then Inf else Fin (1 / x)
  | Inf => Fin 0
  | NaN => NaN
  end.

(** One entry [results[pad, :, idx]] of the cross-run table: (time bucket,
    time bucket error, average amplitude).  The table is kept as the list
    of its run slices [results[:, :, idx]]. *)
Abbreviation cell := (fl * fl * fl)%type.

(** [results[:, :, idx] = run_results].  An array is copied in.  Python's
    [None] is broadcast over the slice, and NumPy stores [None] into a
    float64 array as nan. *)
Definition assign_slice (run_results : option (list (Q *Q * Q))) : list cell :=
  match run_results with
  | Some rows => (fun '(a, b, c) => (Fin a, Fin b, Fin c)) <$> rows
  | None => replicate (Z.to_nat NUM_CHANNELS) (NaN, NaN, NaN)
  end.

(** [results[pad, :, :]], the entries of [pad] run by run. *)
Definition pad_row (results : list (list cell)) (pad : nat) : list cell :=
  (fun slice => default (Fin 0, Fin 0, Fin 0) (slice !! pad)) <$> results.

Definition tb_col (c : cell) : fl := c.1.1.
Definition err_col (c : cell) : fl := c.1.2.
Definition amp_col (c : cell) : fl := c.2.

(** What is handed to [np.savetxt] and, when the raw table was asked
    for, to [np.save].  The writes themselves depend on [write_path] and
    on the file system and can fail; they are not part of the
    embedding. *)
Record written := Written {
  time_correction_fits : list (fl * fl);
  time_correction_results : option (list (list cell))
}.

Section WithFit.

Variable sqrt : Q -> Q.

(** The weighted line fit of lmfit, taken as given: [guess] produces the
    starting parameters, [fit] the (slope, intercept) of the fitted line;
    either may raise. *)
Variable params : Type.
Variable guess : list fl -> list fl -> list fl -> option params.
Variable fit : params -> list fl -> list fl -> list fl -> option (fl * fl).

Definition fsqrt (a : fl) : fl :=
  match a with
  | Fin x => if Qltb x 0 then NaN else Fin (sqrt x)
  | Inf => Inf
  | NaN => NaN
  end.

(** The two statements that build [weights]. *)
Definition weights_of (err : list fl) : list fl :=
  let weights := (fun e => frecip (fsqrt e)) <$> err in
  zip_with (fun w e => if feq0 e then Fin 1 else w) weights err.

(** The loop over the runs: what is printed on the way, and [results]. *)
Fixpoint collect (workspace : Z -> option run_file) (runs : list Z)
  : list Z * option (list (list cell)) :=
  match runs with
  | [] => ([], Some [])
  | run :: runs' =>
      let '(out, r) := pulser_results sqrt workspace run in
      match r with
      | None => (out, None)
      | Some run_results =>
          let '(out', rest) := collect workspace runs' in
          (out ++ out', slices ← rest; Some (assign_slice run_results :: slices))
      end
  end.

(** The body of [for pad in range(NUM_CHANNELS)], on [results[pad]]: the
    row of [fit_results] for [pad] after it. *)
Definition fit_pad (row : list cell) : option (fl * fl) :=
  if feq0 (fsum (amp_col <$> row)) then Some (Fin 0, Fin 0)
  else
    let weights := weights_of (err_col <$> row) in
    pars ← guess (amp_col <$> row) (tb_col <$> row) weights;
    fit pars (amp_col <$> row) (tb_col <$> row) weights.

Definition time_correction_calculator
    (workspace : Z -> option run_file) (run_min run_max : Z) (write_raw : bool)
  : list Z * option written :=
  let num_runs := (run_max - run_min + 1)%Z in
  if decide (num_runs < 0)%Z then ([], None)
  else
    let '(out, r) := collect workspace (seqZ run_min num_runs) in
    (out,
     results ← r;
     fit_results ← mapM fit_pad (rows (Z.to_nat NUM_CHANNELS) results);
     Some (Written fit_results (if write_raw then Some results else None))).

End WithFit.

End Calibrator.

(** ** Sample data

    Concrete runs and a concrete square root, to run the definitions. *)

Module Samples.
Import Extractor Aggregator.

(** The square root cut off after six decimal places. *)
Definition sqrt6 (x : Q) : Q :=
  Z.sqrt (Qnum x * 10 ^ 12 / Z.pos (Qden x)) # 1000000.

(** Two events, 0 and 1; in both, pad 0 fires once, at time bucket 100
    with amplitude 50.  Pad 0 is valid and its standard error is 0. *)
Definition steady_run : run_file :=
  RunFile 0 1 (fun _ => Some [Point 50 0 100]).

(** Two events; pad 0 fires at time buckets 100 and 102, pad 1 at 100 and
    100. *)
Definition jitter_run : run_file :=
  RunFile 0 1 (fun e =>
    Some [Point 50 0 (if (e =? 0)%Z then 100 else 102); Point 30 1 100]).

(** Two events, 0 and 1; event 0 has a cloud in which pad 0 fires once
    with amplitude 50, event 1 has none. *)
Definition gap_run : run_file :=
  RunFile 0 1 (fun e => if (e =? 0)%Z then Some [Point 50 0 100] else None).

(** Standard errors of four channels: zero, two that are not, and a
    masked one. *)
Definition some_errors : list (option Q) :=
  [Some 0%Q; Some (1 # 2); None; Some (1 # 3)].
Definition some_averages : list (option Q) :=
  [Some 100%Q; Some 101%Q; None; Some 99%Q].

(** A run-store that holds run 373 only, and one that holds the same run
    under every number. *)
Definition only_373 (run : Z) : option run_file :=
  if (run =? 373)%Z then Some steady_run else None.
Definition every_run (run : Z) : option run_file := Some steady_run.

(** A weighted least-squares line, to stand for lmfit's: it minimises the
    sum of the squares of [w * (data - (slope * x + intercept))], and it
    raises on input that is not finite, as lmfit does by default. *)
Definition finite (l : list Calibrator.fl) : option (list Q) :=
  mapM (fun a => match a with Calibrator.Fin q => Some q | _ => None end) l.

Definition line_guess (x data weights : list Calibrator.fl) : option unit :=
  _ ← finite x; _ ← finite data; _ ← finite weights; Some tt.

Definition line_fit (pars : unit) (x data weights : list Calibrator.fl)
  : option (Calibrator.fl * Calibrator.fl) :=
  xs ← finite x; ys ← finite data; ws ← finite weights;
  let w2 := (fun w => w * w)%Q <$> ws in
  let sw := Qsum w2 in
  let sx := Qsum (zip_with Qmult w2 xs) in
  let sy := Qsum (zip_with Qmult w2 ys) in
  let sxx := Qsum (zip_with Qmult w2 (zip_with Qmult xs xs)) in
  let sxy := Qsum (zip_with Qmult w2 (zip_with Qmult xs ys)) in
  let d := (sw * sxx - sx * sx)%Q in
  if Qeq_bool d 0 then Some (Calibrator.Fin 0, Calibrator.Fin (sy / sw))
  else Some (Calibrator.Fin ((sw * sxy - sx * sy) / d),
             Calibrator.Fin ((sxx * sy - sx * sxy) / d)).

End Samples.

(** ** EarliestHitExtractor: pad ids counted from the end *)

Module Wrapping.
Import Extractor.

(** The point with a pad id in [-NUM_CHANNELS, 0) replaced by the pad id
    it is filed under. *)
Definition wrapped (p : point) : point :=
  if decide (- NUM_CHANNELS ≤ int (point5 p) < 0)%Z
  then Point (point3 p) (inject_Z (int (point5 p) + NUM_CHANNELS)) (point6 p)
  else p.

(** The row of a channel whose earliest point so far is [p]. *)
Definition row_of (p : point) : stat :=
  Stat (inject_Z (int (point6 p))) (point3 p) 1.

End Wrapping.

(** ** More sample runs *)

Module MoreSamples.
Import Extractor Aggregator.

(** Two events; pad 0 fires at time buckets 100 and 102, pad 1 at 102 and
    100: the same mean, with a non-zero standard error. *)
Definition aligned_run : run_file :=
  RunFile 0 1 (fun e =>
    Some (if (e =? 0)%Z then [Point 50 0 100; Point 30 1 102]
          else [Point 50 0 102; Point 30 1 100])).

(** One event, in which pads 0 and 1 fire. *)
Definition single_event_run : run_file :=
  RunFile 7 7 (fun _ => Some [Point 50 0 100; Point 30 1 104]).

(** Two events, 0 and 1: the first has no cloud, the second a point
    with pad id -1.  Under event 2, outside the event range, the file
    holds a cloud with a pad id outside the table. *)
Definition wrapped_run : run_file :=
  RunFile 0 1 (fun e => if (e =? 1)%Z then Some [Point 5 (-1) 7]
                        else if (e =? 2)%Z then Some [Point 5 20000 7]
                        else None).

(** The check, row by row, that every channel mean that is not masked
    equals [t]. *)
Definition means_equal (num_events : Z) (t : Q) (pads : list (list stat)) : bool :=
  forallb (fun row => match pad_tb_avg num_events row with
                      | Some x => Qeq_bool x t
                      | None => true
                      end) pads.

End MoreSamples.

(** ** MultiRunCalibrator: the runs without a file *)

Module Missing.
Import Aggregator.

Definition missing (workspace : Z -> option run_file) (run : Z) : bool :=
  match workspace run with None => true | Some _ => false end.

End Missing.

(** ** Simulation utilities ([simulations/sim_utils.py]) *)

Module Simulation.
Import Aggregator Calibrator.

(** *** [state_shape] *)

(** The loop body: [1 / ((point - Ei) ** 2 + gamma**2 / 4)] on Python
    floats, where a division by zero raises ZeroDivisionError. *)
Definition state_value (Ei gamma point : Q) : option Q :=
  let d := ((point - Ei) ^ 2 + gamma ^ 2 / 4)%Q in
  if Qeq_bool d 0 then None else Some (1 / d)%Q.

Definition state_shape (points : list Q) (Ei gamma : Q) : option (list Q) :=
  mapM (state_value Ei gamma) points.

(** *** [max_reaction_excitation_energy] *)

(** [NucleusData], of which only the rest mass is read. *)
Record NucleusData := Nucleus { mass : Q }.

(** The values of the [reaction] dictionary: one nucleus under "beam" and
    "target", a list of nuclei under "products". *)
Inductive entry := One (n : NucleusData) | Many (l : list NucleusData).

Definition one (e : option entry) : option NucleusData :=
  match e with Some (One n) => Some n | _ => None end.
Definition many (e : option entry) : option (list NucleusData) :=
  match e with Some (Many l) => Some l | _ => None end.

(** What the square root is taken of, [b**2 - 4*a*c], from the summed
    product masses [M], the beam and target masses and the beam energy. *)
Definition radicand (M beam target beam_energy : Q) : Q :=
  let a := 1%Q in
  let b := (2 * M)%Q in
  let c := (M ^ 2 - (beam + target) ^ 2 - 2 * target * beam_energy)%Q in
  (b ^ 2 - 4 * a * c)%Q.

Section WithSqrt.
Variable sqrt : Q -> Q.

(** A missing key, or a value of the wrong kind under a key, raises; the
    square root of a negative number is nan. *)
Definition max_reaction_excitation_energy
    (reaction : gmap string entry) (beam_energy : Q) : option fl :=
  products ← many (reaction !! "products"%string);
  let M := foldl (fun M nucleus => (M + mass nucleus)%Q) 0%Q products in
  let a := 1%Q in
  let b := (2 * M)%Q in
  beam ← one (reaction !! "beam"%string);
  target ← one (reaction !! "target"%string);
  let c :=
    (M ^ 2 - (mass beam + mass target) ^ 2 - 2 * mass target * beam_energy)%Q in
  Some (match fsqrt sqrt (Fin (b ^ 2 - 4 * a * c)) with
        | Fin root => Fin ((- b + root) / 2 / a)
        | other => other
        end).

End WithSqrt.

(** *** [SpyralWriter_e20009] *)

Section Writer.

(** The simulated cloud handed to [write], the cloud in Spyral's format,
    the pad centres and the electronics response are data of the
    simulation engine; [convert_to_spyral] and the size of a file on disk
    are taken as given. *)
Context {sim_cloud spyral_cloud pads response_t : Type}.
Variable convert_to_spyral :
  sim_cloud -> Q -> Q -> Q -> response_t -> pads -> Q -> spyral_cloud.

(** The parts of [Config] that [write] reads; [det_length] is
    [det_params.length]. *)
Record ElectronicsParams := MkElectronics {
  windows_edge : Q;
  micromegas_edge : Q;
  adc_threshold : Q
}.
Record DetectorParams := MkDetector { det_length : Q }.
Record Config := MkConfig {
  pad_centers : option pads;
  elec_params : ElectronicsParams;
  det_params : DetectorParams
}.

(** A dataset [cloud_<event>] and its attributes. *)
Record dataset := Dataset {
  ds_data : spyral_cloud;
  ds_attrs : gmap string Q
}.

(** A point-cloud file: the attributes of its [cloud] group and the
    datasets of the group, by event number. *)
Record h5file := H5File {
  cloud_attrs : gmap string Z;
  clouds : gmap Z dataset
}.

Variable st_size : h5file -> Z.

(** The writer, and the directory it writes to: the file
    [run_<n:04d>.h5] is kept under its run number [n].  The file being
    written to is the one of [run_number].  [event_number_high] does not
    exist until the first [write]. *)
Record writer := Writer {
  response : response_t;
  max_file_size : Q;
  run_number : Z;
  event_number_low : Z;
  event_number_high : option Z;
  directory : gmap Z h5file
}.

Inductive exn := ValueError | DatasetExists | AttributeError | FileGone.

Inductive outcome := Done (w : writer) | Raised (e : exn) (w : writer).

(** [create_file]: [h5.File(path, "w")] starts the file of the next run
    number empty. *)
Definition create_file (w : writer) : writer :=
  let n := (run_number w + 1)%Z in
  Writer (response w) (max_file_size w) n
         (event_number_low w) (event_number_high w)
         (<[n := H5File ∅ ∅]> (directory w)).

(** [__init__] *)
Definition init (resp : response_t) (max_size : Q) (dir : gmap Z h5file) : writer :=
  create_file (Writer resp max_size 0 0 None dir).

(** [set_number_of_events] *)
Definition set_number_of_events (w : writer) : outcome :=
  match event_number_high w, directory w !! run_number w with
  | None, _ => Raised AttributeError w
  | _, None => Raised FileGone w
  | Some high, Some file =>
      let attrs := <["max_event"%string := high]>
                     (<["min_event"%string := event_number_low w]> (cloud_attrs file)) in
      Done (Writer (response w) (max_file_size w) (run_number w)
                   high (Some high)
                   (<[run_number w := H5File attrs (clouds file)]> (directory w)))
  end.

Definition ic_attrs : list string :=
  ["ic_amplitude"; "ic_multiplicity"; "ic_integral"; "ic_centroid";
   "ic_sca_centroid"; "ic_sca_multiplicity"]%string.

(** The six assignments [dset.attrs[...] = -1.0]. *)
Definition no_ic (d : dataset) : dataset :=
  Dataset (ds_data d) (foldl (fun m k => <[k := (-1)%Q]> m) (ds_attrs d) ic_attrs).

(** [write] *)
Definition write (w : writer) (data : sim_cloud) (config : Config)
    (event_number : Z) : outcome :=
  match pad_centers config with
  | None => Raised ValueError w
  | Some centers =>
      let spyral_format :=
        convert_to_spyral
          data
          (windows_edge (elec_params config))
          (micromegas_edge (elec_params config))
          (det_length (det_params config))
          (response w)
          centers
          (adc_threshold (elec_params config)) in
      let w := Writer (response w) (max_file_size w) (run_number w)
                      (event_number_low w) (Some event_number) (directory w) in
      match directory w !! run_number w with
      | None => Raised FileGone w
      | Some file =>
          if decide (is_Some (clouds file !! event_number)) then
            Raised DatasetExists w
          else
            let written := run_number w in
            let file := H5File (cloud_attrs file)
                          (<[event_number := Dataset spyral_format ∅]> (clouds file)) in
            let w := Writer (response w) (max_file_size w) (run_number w)
                            (event_number_low w) (event_number_high w)
                            (<[written := file]> (directory w)) in
            let rotated :=
              if Qltb (max_file_size w) (inject_Z (st_size file)) then
                match set_number_of_events w with
                | Done w => Done (create_file w)
                | raised => raised
                end
              else Done w in
            match rotated with
            | Done w =>
                Done (Writer (response w) (max_file_size w) (run_number w)
                        (event_number_low w) (event_number_high w)
                        (alter (fun f => H5File (cloud_attrs f)
                                           (alter no_ic event_number (clouds f)))
                               written (directory w)))
            | raised => raised
            end
      end
  end.

(** A sequence of calls of [write], up to the first that raises. *)
Fixpoint writes (w : writer) (calls : list (sim_cloud * Config * Z)) : outcome :=
  match calls with
  | [] => Done w
  | (data, config, event_number) :: calls' =>
      match write w data config event_number with
      | Done w' => writes w' calls'
      | raised => raised
      end
  end.

(** The lower event bound that belongs to the file of run number [k]:
    the attribute [min_event] of a file that has been left, the writer's
    [event_number_low] for the file being written. *)
Definition lower_bound (w : writer) (k : Z) : option Z :=
  if decide (k = run_number w) then Some (event_number_low w)
  else f ← directory w !! k; cloud_attrs f !! "min_event"%string.

End Writer.

End Simulation.

(** ** Sample reaction *)

Module SampleReaction.
Import Simulation.

(** Beam of mass 1 on a target of mass 2 with two products of mass 1. *)
Definition sample_reaction : gmap string entry :=
  <["beam"%string := One (Nucleus 1)]>
    (<["target"%string := One (Nucleus 2)]>
       (<["products"%string := Many [Nucleus 1; Nucleus 1]]> ∅)).

End SampleReaction.

(** ** What a directory written by [SpyralWriter_e20009] looks like *)

Module WriterSpec.
Import Simulation.

Section Spec.
Context {spyral_cloud response_t : Type}.
Abbreviation writer := (@writer spyral_cloud response_t).

(** Event numbers that increase strictly, from [last] on when there is
    one. *)
Fixpoint ascending (last : option Z) (events : list Z) : Prop :=
  match events with
  | [] => True
  | e :: events' =>
      match last with Some h => (h < e)%Z | None => True end ∧
      ascending (Some e) events'
  end.

(** The file being written carries no event bounds yet; every file left
    behind carries both; the first file starts at event 0 and every other
    file starts where the one before it ended. *)
Definition chained (w : writer) : Prop :=
  (1 ≤ run_number w)%Z ∧
  (∃ f, directory w !! run_number w = Some f ∧ cloud_attrs f = ∅) ∧
  lower_bound w 1 = Some 0%Z ∧
  ∀ k, (1 ≤ k < run_number w)%Z →
    ∃ f lo hi,
      directory w !! k = Some f ∧
      cloud_attrs f !! "min_event"%string = Some lo ∧
      cloud_attrs f !! "max_event"%string = Some hi ∧
      lower_bound w (k + 1) = Some hi.

(** Where the clouds of the files lie: in a file left behind, at event
    numbers up to [max_event], which has a cloud, and, from the second
    file on, above [min_event]; in the file being written, up to the last
    event written and, from the second file on, above
    [event_number_low]. *)
Definition ranged (w : writer) : Prop :=
  (∀ k f lo hi, (1 ≤ k < run_number w)%Z → directory w !! k = Some f →
     cloud_attrs f !! "min_event"%string = Some lo →
     cloud_attrs f !! "max_event"%string = Some hi →
     is_Some (clouds f !! hi) ∧
     ∀ e, is_Some (clouds f !! e) → (e ≤ hi)%Z ∧ (1 < k → lo < e)%Z) ∧
  (∀ f e, directory w !! run_number w = Some f → is_Some (clouds f !! e) →
     (∃ h, event_number_high w = Some h ∧ (e ≤ h)%Z) ∧
     (1 < run_number w → event_number_low w < e)%Z) ∧
  ((1 < run_number w)%Z →
   ∃ h, event_number_high w = Some h ∧ (event_number_low w ≤ h)%Z).

(** Every cloud of the files written so far carries the six ion-chamber
    attributes, all -1. *)
Definition stamped (w : writer) : Prop :=
  ∀ k f e d, (1 ≤ k ≤ run_number w)%Z → directory w !! k = Some f →
    clouds f !! e = Some d →
    ∀ key, key ∈ ic_attrs → ds_attrs d !! key = Some (-1)%Q.

End Spec.

End WriterSpec.

(** ** A sample writer *)

Module SampleWriter.
Import Simulation.

(** Clouds are numbers, converted by adding the pad offset; a file weighs
    100 bytes per cloud. *)
Definition sample_convert (data : Z) (windows micromegas len : Q) (resp pads : Z)
    (threshold : Q) : Z := (data + pads)%Z.
Definition sample_size (f : @h5file Z) : Z := (100 * Z.of_nat (size (clouds f)))%Z.
Definition sample_config : @Config Z :=
  MkConfig (Some 1000%Z) (MkElectronics 0 0 0) (MkDetector 1).

(** A writer that starts a new file once the current one weighs more than
    150 bytes, that is, with its second cloud. *)
Definition sample_writer : @writer Z Z := init 0%Z 150 ∅.

(** Five events, 0 to 4. *)
Definition sample_calls : list (Z * @Config Z * Z) :=
  (fun e => (e, sample_config, e)) <$> [0; 1; 2; 3; 4]%Z.

End SampleWriter.

(** * Properties *)

(** ** Numbers *)

Lemma Qltb_lt x y : Qltb x y = true <-> (x < y)%Q.
Proof.
  unfold Qltb. rewrite negb_true_iff. split.
  - intros H. apply Qnot_le_lt. intros Hle.
    apply Qle_bool_iff in Hle. congruence.
  - intros H. destruct (Qle_bool y x) eqn:E; [|done].
    apply Qle_bool_iff in E. exfalso. by apply (Qlt_not_le x y).
Qed.

Lemma Qltb_inject (a b : Z) : Qltb (inject_Z a) (inject_Z b) = (a <? b)%Z.
Proof.
  apply eq_true_iff_eq. rewrite Qltb_lt, Z.ltb_lt, <- Zlt_Qlt. done.
Qed.

Lemma Qeq_bool_inject (a b : Z) : Qeq_bool (inject_Z a) (inject_Z b) = (a =? b)%Z.
Proof.
  apply eq_true_iff_eq. rewrite Qeq_bool_iff, Z.eqb_eq. unfold Qeq. simpl. lia.
Qed.

Lemma int_inject (z : Z) : int (inject_Z z) = z.
Proof. unfold int. simpl. apply Z.quot_1_r. Qed.

Lemma Qeq_bool_inject_0 (a : Z) : Qeq_bool (inject_Z a) 0 = (a =? 0)%Z.
Proof. apply (Qeq_bool_inject a 0). Qed.

(** [int] rounds toward zero: the result is no larger in magnitude than
    the argument and less than one away from it. *)
Lemma int_toward_zero (x : Q) :
  (Qabs (inject_Z (int x)) <= Qabs x)%Q ∧ (Qabs (x - inject_Z (int x)) < 1)%Q.
Proof.
  destruct x as [n d]. unfold int. cbn [Qnum Qden].
  pose proof (Z.quot_rem' n (Z.pos d)) as Hqr.
  pose proof (Z.rem_bound_abs n (Z.pos d) ltac:(lia)) as Hr.
  pose proof (Z.rem_sign_mul n (Z.pos d) ltac:(lia)) as Hs.
  pose proof (Z.quot_abs n (Z.pos d) ltac:(lia)) as Hq.
  pose proof (Z.mul_quot_le (Z.abs n) (Z.pos d) ltac:(lia) ltac:(lia)) as Hm.
  split.
  - unfold Qle, Qabs, inject_Z. cbn [Qnum Qden].
    rewrite Z.mul_1_r. rewrite <- Hq.
    replace (Z.abs (Z.pos d)) with (Z.pos d) in * by lia.
    lia.
  - unfold Qlt, Qabs, Qminus, Qplus, Qopp, inject_Z. cbn [Qnum Qden].
    replace (n * 1 + - (n ÷ Z.pos d) * Z.pos d)%Z with (Z.rem n (Z.pos d)) by lia.
    rewrite Pos.mul_1_r. lia.
Qed.

(** ** EarliestHitExtractor *)

Module ExtractorFacts.
Import Extractor.

Lemma index_lt n i k : index n i = Some k → (k < n)%nat.
Proof. unfold index. intros; repeat case_decide; simplify_eq; lia. Qed.

Lemma index_is_Some n i :
  is_Some (index n i) ↔ (- Z.of_nat n ≤ i < Z.of_nat n)%Z.
Proof.
  unfold index. split.
  - intros [k Hk]. repeat case_decide; simplify_eq; lia.
  - intros H. repeat case_decide; eauto; lia.
Qed.

Lemma pad_step_is_Some er p :
  is_Some (pad_step er p) ↔ is_Some (index (length er) (int (point5 p))).
Proof.
  unfold pad_step. cbn zeta. split.
  - intros [er' H]. destruct (index _ _); [eauto | done].
  - intros [i Hi]. rewrite Hi. cbn.
    destruct (lookup_lt_is_Some_2 er i (index_lt _ _ _ Hi)) as [r Hr].
    rewrite Hr. cbn. repeat case_match; eauto.
Qed.

Lemma pad_step_length er p er' :
  pad_step er p = Some er' → length er' = length er.
Proof.
  unfold pad_step. cbn zeta. intros H.
  destruct (index _ _) as [i|]; [|done]. cbn in H.
  destruct (er !! i) as [r|]; [|done]. cbn in H.
  repeat case_match; simplify_eq; by rewrite ?length_insert.
Qed.

Lemma pad_step_lookup er p er' c r :
  pad_step er p = Some er' → er !! c = Some r →
  er' !! c =
    Some (if bool_decide (index (length er) (int (point5 p)) = Some c)
          then merge r p else r).
Proof.
  unfold pad_step, merge. cbn zeta. intros H Hc.
  destruct (index _ _) as [i|] eqn:Hi; [|done]. cbn in H.
  destruct (er !! i) as [ri|] eqn:Hri; [|done]. cbn in H.
  pose proof (lookup_lt_Some _ _ _ Hc) as Hlt.
  case_bool_decide as Hic.
  - simplify_eq.
    repeat case_match; simplify_eq; by rewrite ?list_lookup_insert_eq.
  - assert (i ≠ c) by congruence.
    repeat case_match; simplify_eq; by rewrite ?list_lookup_insert_ne.
Qed.

Lemma pad_loop_length pc : ∀ er er',
  pad_loop er pc = Some er' → length er' = length er.
Proof.
  induction pc as [|p pc IH]; intros er er' H; cbn in H; [by simplify_eq|].
  destruct (pad_step er p) as [er1|] eqn:E; [|done]. cbn in H.
  rewrite (IH _ _ H). by eapply pad_step_length.
Qed.

Lemma pad_loop_is_Some pc : ∀ er,
  is_Some (pad_loop er pc) ↔
  Forall (fun p => is_Some (index (length er) (int (point5 p)))) pc.
Proof.
  induction pc as [|p pc IH]; intros er; cbn.
  - split; eauto.
  - rewrite Forall_cons, <- pad_step_is_Some. split.
    + intros [er' H]. destruct (pad_step er p) as [er1|] eqn:E; [|done].
      cbn in H. split; [eauto|].
      rewrite <- (pad_step_length _ _ _ E). apply IH. eauto.
    + intros [[er1 E] Hall]. rewrite E. cbn. apply IH.
      by rewrite (pad_step_length _ _ _ E).
Qed.

(** The table loop, seen from one channel: the channel's row is folded
    over the points filed under it, in cloud order; the other points do
    not touch it. *)
Lemma pad_loop_lookup c pc : ∀ er er' r,
  pad_loop er pc = Some er' → er !! c = Some r →
  er' !! c =
    Some (foldl merge r
            (filter (fun p => index (length er) (int (point5 p)) = Some c) pc)).
Proof.
  induction pc as [|p pc IH]; intros er er' r H Hc; cbn in H.
  - by simplify_eq.
  - destruct (pad_step er p) as [er1|] eqn:E; [|done]. cbn in H.
    pose proof (pad_step_lookup _ _ _ _ _ E Hc) as H1.
    pose proof (pad_step_length _ _ _ E) as Hlen.
    rewrite (IH _ _ _ H H1), Hlen, filter_cons.
    case_bool_decide; case_decide; done.
Qed.

Lemma zeros_lookup (c : nat) :
  (c < Z.to_nat NUM_CHANNELS)%nat →
  replicate (Z.to_nat NUM_CHANNELS) zeros !! c = Some zeros.
Proof. intros. by apply lookup_replicate_2. Qed.

Lemma on_channel_filter c (pc : list point) :
  filter (fun p => on_channel c p = true) pc
  = filter (fun p => index (Z.to_nat NUM_CHANNELS) (int (point5 p)) = Some c) pc.
Proof.
  apply list_filter_iff. intros p. unfold on_channel, channel_of.
  by rewrite bool_decide_eq_true.
Qed.

(** The row recorded for channel [c]. *)
Lemma pad_times_lookup (pc : list point) er c :
  pad_times pc = Some er → (c < Z.to_nat NUM_CHANNELS)%nat →
  er !! c = Some (foldl merge zeros (filter (fun p => on_channel c p = true) pc)).
Proof.
  unfold pad_times. intros H Hc.
  rewrite (pad_loop_lookup c _ _ _ _ H (zeros_lookup c Hc)).
  by rewrite length_replicate, on_channel_filter.
Qed.

Lemma pad_times_length pc er :
  pad_times pc = Some er → length er = Z.to_nat NUM_CHANNELS.
Proof.
  unfold pad_times. intros H. rewrite (pad_loop_length _ _ _ H).
  apply length_replicate.
Qed.

(** A channel no point is filed under keeps the zeros it started with. *)
Lemma pad_times_untouched (pc : list point) er c :
  pad_times pc = Some er → (c < Z.to_nat NUM_CHANNELS)%nat →
  channel_tbs pc c = [] → er !! c = Some zeros.
Proof.
  intros H Hc Hnone. rewrite (pad_times_lookup _ _ _ H Hc).
  unfold channel_tbs in Hnone. apply fmap_nil_inv in Hnone. by rewrite Hnone.
Qed.

Lemma merge_hit r p : hit_of r = 1%Q → hit_of (merge r p) = 1%Q.
Proof. unfold merge. cbn zeta. intros. by repeat case_match. Qed.

Lemma fold_merge_hit l : ∀ r, hit_of r = 1%Q → hit_of (foldl merge r l) = 1%Q.
Proof. induction l as [|p l IH]; intros r Hr; cbn; [done|]. by apply IH, merge_hit. Qed.

(** The hit flag of a channel is 1 as soon as one point is filed under
    it. *)
Lemma fold_merge_zeros_hit l : l ≠ [] → hit_of (foldl merge zeros l) = 1%Q.
Proof. destruct l as [|p l]; [done|]. intros _. cbn. by apply fold_merge_hit. Qed.

(** A later point whose truncated time bucket equals a stored, non-zero
    one leaves the row as it is. *)
Lemma merge_tie r p :
  Qeq_bool (tb_of r) 0 = false → tb_of r = inject_Z (int (point6 p)) →
  merge r p = r.
Proof.
  unfold merge. cbn zeta. intros -> ->.
  rewrite Qltb_inject, Z.ltb_irrefl. done.
Qed.

(** Away from time bucket zero the fold keeps the running minimum. *)
Lemma fold_merge_min l : ∀ r (m : Z),
  tb_of r = inject_Z m → m ≠ 0%Z →
  Forall (fun p => int (point6 p) ≠ 0%Z) l →
  ∃ m' : Z,
    tb_of (foldl merge r l) = inject_Z m' ∧ m' ≠ 0%Z ∧ (m' ≤ m)%Z ∧
    Forall (fun p => (m' ≤ int (point6 p))%Z) l ∧
    (m' = m ∨ m' ∈ (fun p => int (point6 p)) <$> l).
Proof.
  induction l as [|p l IH]; intros r m Hr Hm Hall; cbn.
  - exists m. repeat split; auto; lia.
  - apply Forall_cons in Hall as [Hp Hall].
    assert (Hz : Qeq_bool (tb_of r) 0 = false).
    { rewrite Hr, Qeq_bool_inject_0. by apply Z.eqb_neq. }
    destruct (Z.ltb_spec (int (point6 p)) m) as [Hlt|Hge].
    + assert (Hm1 : tb_of (merge r p) = inject_Z (int (point6 p))).
      { unfold merge. cbn zeta. rewrite Hz, Hr, Qltb_inject.
        by rewrite (proj2 (Z.ltb_lt _ _) Hlt). }
      destruct (IH _ _ Hm1 Hp Hall) as (m' & E & Hne & Hle & Hfa & Hin).
      exists m'. split_and!; [done | done | lia | by constructor |].
      right. destruct Hin as [->|Hin]; [by left | by right].
    + assert (Hm1 : merge r p = r).
      { unfold merge. cbn zeta. rewrite Hz, Hr, Qltb_inject.
        by rewrite (proj2 (Z.ltb_ge _ _) Hge). }
      rewrite Hm1.
      destruct (IH _ _ Hr Hm Hall) as (m' & E & Hne & Hle & Hfa & Hin).
      exists m'. split_and!; [done | done | done | constructor; [lia | done] |].
      destruct Hin as [->|Hin]; [by left | right; by right].
Qed.

(** The extractor is right about every channel whose points all have a
    non-zero truncated time bucket: the recorded time bucket is the
    minimum over the channel's points, and the hit flag is 1. *)
Lemma pad_times_earliest_nonzero (pc : list point) er c :
  pad_times pc = Some er → (c < Z.to_nat NUM_CHANNELS)%nat →
  channel_tbs pc c ≠ [] →
  Forall (fun t => t ≠ 0%Z) (channel_tbs pc c) →
  ∃ r (m : Z),
    er !! c = Some r ∧ tb_of r = inject_Z m ∧ hit_of r = 1%Q ∧
    m ∈ channel_tbs pc c ∧ Forall (fun t => (m ≤ t)%Z) (channel_tbs pc c).
Proof.
  intros H Hc Hne Hnz. rewrite (pad_times_lookup _ _ _ H Hc).
  unfold channel_tbs in *.
  destruct (filter _ pc) as [|p l]; [done|]. clear Hne.
  rewrite fmap_cons in *. apply Forall_cons in Hnz as [Hp Hl].
  rewrite Forall_fmap in Hl.
  assert (E1 : tb_of (merge zeros p) = inject_Z (int (point6 p))) by done.
  destruct (fold_merge_min l _ _ E1 Hp Hl) as (m' & E & Hm' & Hle & Hfa & Hin).
  eexists _, m'. split; [done|]. cbn [foldl]. split_and!.
  - done.
  - by apply fold_merge_hit.
  - destruct Hin as [->|Hin]; [left | by right].
  - constructor; [done|]. by rewrite Forall_fmap.
Qed.

Lemma pad_step_truncated er p : pad_step er (truncated p) = pad_step er p.
Proof. unfold pad_step, truncated. cbn. by rewrite !int_inject. Qed.

Lemma pad_loop_truncated pc : ∀ er,
  pad_loop er (truncated <$> pc) = pad_loop er pc.
Proof.
  induction pc as [|p pc IH]; intros er; [done|].
  rewrite fmap_cons. cbn [pad_loop]. rewrite pad_step_truncated.
  destruct (pad_step er p); cbn; [apply IH | done].
Qed.

End ExtractorFacts.

Module ExtractorClaims.
Import Extractor ExtractorFacts.

(** C1: the claim is that the recorded time bucket of a channel never
    exceeds the minimum over the channel's points.  On the cloud whose
    two points of channel 0 have time buckets 0 and then 7, [pad_times]
    records (7, 9, 1) for channel 0: the stored 0 is read as "nothing
    stored yet" and the second point replaces the first, so the recorded
    time bucket 7 exceeds the minimum 0. *)
Theorem zero_bucket_is_replaced :
  recorded cloud_zero_then_seven 0 = Some (Stat 7 9 1) ∧
  channel_tbs cloud_zero_then_seven 0 = [0; 7]%Z ∧
  ¬ (∀ r, recorded cloud_zero_then_seven 0 = Some r →
          Forall (fun t => (tb_of r <= inject_Z t)%Q)
                 (channel_tbs cloud_zero_then_seven 0)).
Proof.
  assert (E : recorded cloud_zero_then_seven 0 = Some (Stat 7 9 1))
    by (vm_compute; reflexivity).
  assert (T : channel_tbs cloud_zero_then_seven 0 = [0; 7]%Z)
    by (vm_compute; reflexivity).
  split_and!; [done | done |].
  intros H. specialize (H _ E). rewrite T in H.
  apply Forall_cons in H as [H _]. revert H. vm_compute. by intros H.
Qed.

(** C3: the claim is that of two points of one channel with equal time
    buckets the first keeps its amplitude.  On the cloud whose two points
    of channel 0 both have time bucket 0, with amplitudes 5 and then 9,
    [pad_times] records amplitude 9: the tie at time bucket 0 is won by
    the later point. *)
Theorem tie_at_zero_is_replaced :
  recorded cloud_tie_at_zero 0 = Some (Stat 0 9 1) ∧
  channel_tbs cloud_tie_at_zero 0 = [0; 0]%Z ∧
  amp_of <$> recorded [Point 5 0 0] 0 = Some 5%Q.
Proof. split_and!; vm_compute; reflexivity. Qed.

(** C10, as claimed, fails: a cloud whose only point has pad id -1 is
    processed without an error (the point lands in the last channel),
    although its pad id is not in [0, NUM_CHANNELS). *)
Lemma negative_pad_id_is_accepted :
  ¬ (is_Some (pad_times cloud_last_pad) ↔
     Forall (fun p => (0 ≤ int (point5 p) < NUM_CHANNELS)%Z) cloud_last_pad).
Proof.
  intros [H _].
  assert (Hs : is_Some (pad_times cloud_last_pad))
    by (eexists; vm_compute; reflexivity).
  apply H, Forall_cons in Hs as [Hs _]. revert Hs. vm_compute.
  intros [Hs _]. by apply Hs.
Qed.

(** C10, amended: [pad_times] checks no pad id.  Whenever the integer
    part of every point's pad id lies in [-NUM_CHANNELS, NUM_CHANNELS),
    as that of a negative pad id can, it returns a table of
    [NUM_CHANNELS] rows; its result depends on the pad id and on the time
    bucket of a point only through their integer parts; and the integer
    part is taken toward zero. *)
Theorem pad_times_total_in_range (pc : list point) :
  Forall (fun p => (- NUM_CHANNELS ≤ int (point5 p) < NUM_CHANNELS)%Z) pc →
  (∃ er, pad_times pc = Some er ∧ length er = Z.to_nat NUM_CHANNELS) ∧
  pad_times (truncated <$> pc) = pad_times pc ∧
  (∀ x : Q, (Qabs (inject_Z (int x)) <= Qabs x)%Q ∧
            (Qabs (x - inject_Z (int x)) < 1)%Q).
Proof.
  intros Hpc. split_and!.
  - assert (is_Some (pad_times pc)) as [er Her].
    { unfold pad_times. apply pad_loop_is_Some. rewrite length_replicate.
      eapply Forall_impl; [exact Hpc|].
      intros p Hp. apply index_is_Some. by rewrite Z2Nat.id. }
    exists er. split; [done|]. by eapply pad_times_length.
  - apply pad_loop_truncated.
  - apply int_toward_zero.
Qed.

Lemma pad_times_total_in_range_witness :
  (∃ er, pad_times cloud_last_pad = Some er ∧
         length er = Z.to_nat NUM_CHANNELS) ∧
  pad_times (truncated <$> cloud_last_pad) = pad_times cloud_last_pad ∧
  (∀ x : Q, (Qabs (inject_Z (int x)) <= Qabs x)%Q ∧
            (Qabs (x - inject_Z (int x)) < 1)%Q).
Proof.
  apply (pad_times_total_in_range cloud_last_pad).
  constructor; [|constructor]. vm_compute. split; [discriminate | reflexivity].
Defined.

End ExtractorClaims.

(** ** RunAggregator: the weighting step *)

Module WeightFacts.
Import Extractor Aggregator.

Lemma Qsum_cons x l : Qsum (x :: l) = (x + Qsum l)%Q.
Proof. done. Qed.

Lemma Qsum_scale (s : Q) (l : list Q) :
  (Qsum ((fun w => w / s) <$> l) == Qsum l / s)%Q.
Proof.
  induction l as [|x l IH].
  - cbn. unfold Qdiv. ring.
  - rewrite fmap_cons, !Qsum_cons, IH. unfold Qdiv. ring.
Qed.

Lemma Qsum_pos (l : list Q) :
  l ≠ [] → Forall (fun x => 0 < x)%Q l → (0 < Qsum l)%Q.
Proof.
  intros Hne Hall. induction Hall as [|x l Hx Hall IH]; [done|].
  rewrite Qsum_cons. destruct l as [|y l].
  - cbn. by rewrite Qplus_0_r.
  - rewrite <- (Qplus_0_r 0). apply Qplus_lt_le_compat; [done|].
    apply Qlt_le_weak, IH. done.
Qed.

Lemma Qeq_bool_false_iff (x y : Q) : Qeq_bool x y = false ↔ ¬ (x == y)%Q.
Proof.
  rewrite <- Qeq_bool_iff. destruct (Qeq_bool x y); split; auto; done.
Qed.

(** The inverse square of a non-zero number is positive. *)
Lemma inverse_square_pos (e : Q) : ¬ (e == 0)%Q → (0 < e ^ (-2))%Q.
Proof.
  intros He. cbn. apply Qinv_lt_0_compat.
  destruct e as [n d]. unfold Qeq in He. cbn in He.
  unfold Qlt, Qmult. cbn. nia.
Qed.

(** [pad_tb_err**-2]: a masked entry and a zero entry come out masked, any
    other entry comes out as a positive number. *)
Lemma ma_power_inverse_square (e : option Q) :
  ma_power e (-2) =
    match e with
    | Some x => if Qeq_bool x 0 then None else Some (x ^ (-2))%Q
    | None => None
    end.
Proof. by destruct e. Qed.

Lemma inverse_squares_pos (err : list (option Q)) :
  Forall (fun x => 0 < x)%Q (omap id ((fun e => ma_power e (-2)) <$> err)).
Proof.
  induction err as [|e err IH]; [constructor|].
  rewrite fmap_cons. cbn [omap]. rewrite ma_power_inverse_square.
  destruct e as [x|]; [|done].
  destruct (Qeq_bool x 0) eqn:E; [done|]. cbn. constructor; [|done].
  by apply inverse_square_pos, Qeq_bool_false_iff.
Qed.

Lemma inverse_squares_nonempty (err : list (option Q)) i e :
  err !! i = Some (Some e) → ¬ (e == 0)%Q →
  omap id ((fun e => ma_power e (-2)) <$> err) ≠ [].
Proof.
  intros Hi He Hnil.
  assert (Hin : (e ^ (-2))%Q ∈ omap id ((fun e => ma_power e (-2)) <$> err)).
  { apply list_elem_of_omap. exists (Some (e ^ (-2))%Q). split; [|done].
    apply list_elem_of_fmap. exists (Some e). split.
    - rewrite ma_power_inverse_square.
      by rewrite (proj2 (Qeq_bool_false_iff e 0) He).
    - by eapply list_elem_of_lookup_2. }
  rewrite Hnil in Hin. by apply not_elem_of_nil in Hin.
Qed.

(** The sum of the inverse squares, when some entry is neither masked nor
    zero: a positive number. *)
Lemma inverse_squares_sum (err : list (option Q)) i e :
  err !! i = Some (Some e) → ¬ (e == 0)%Q →
  ∃ s, ma_sum ((fun e => ma_power e (-2)) <$> err) = Some s ∧ (0 < s)%Q.
Proof.
  intros Hi He. unfold ma_sum.
  pose proof (inverse_squares_nonempty _ _ _ Hi He) as Hne.
  pose proof (inverse_squares_pos err) as Hpos.
  destruct (omap id _) as [|x xs] eqn:E; [done|].
  eexists. split; [done|]. by apply Qsum_pos.
Qed.

Lemma unmasked_cons {A} (a : option A) (l : list (option A)) :
  omap id (a :: l) = match a with Some y => y :: omap id l | None => omap id l end.
Proof. by destruct a. Qed.

Lemma unmasked_quotients (s : Q) (l : list (option Q)) :
  Qeq_bool s 0 = false →
  omap id ((fun w => ma_div w (Some s)) <$> l) = (fun w => w / s)%Q <$> omap id l.
Proof.
  intros Hs. induction l as [|w l IH]; [done|].
  rewrite fmap_cons, !unmasked_cons, IH. destruct w as [x|]; [|done].
  unfold ma_div. cbn. by rewrite Hs.
Qed.

(** When no entry is a number other than zero, every inverse square is
    masked. *)
Lemma inverse_squares_masked (err : list (option Q)) :
  (∀ i e, err !! i = Some (Some e) → (e == 0)%Q) →
  (fun e => ma_power e (-2)) <$> err = replicate (length err) None.
Proof.
  induction err as [|x err IH]; intros Hzero; [done|].
  rewrite fmap_cons. cbn [length replicate]. f_equal.
  - rewrite ma_power_inverse_square. destruct x as [y|]; [|done].
    by rewrite (proj2 (Qeq_bool_iff y 0) (Hzero 0%nat y eq_refl)).
  - apply IH. intros i e Hi. by apply (Hzero (S i)).
Qed.

Lemma ma_sum_replicate_None (n : nat) : ma_sum (replicate n None) = None.
Proof.
  unfold ma_sum. replace (omap id (replicate n (@None Q))) with (@nil Q); [done|].
  induction n as [|n IH]; [done|]. done.
Qed.

End WeightFacts.

Module WeightClaims.
Import Extractor Aggregator WeightFacts Samples.

(** C4: a channel that is valid (not masked) but whose standard error is
    zero gets a masked weight, and everything the weighting step computes
    (the weights of all channels and the run-wide reference) is what it
    would be with that channel masked: no weight of another channel
    changes, and no step fails. *)
Theorem zero_error_channel_is_left_out
    (err avg : list (option Q)) (i : nat) (e : Q) :
  err !! i = Some (Some e) → (e == 0)%Q →
  pad_tb_weights err !! i = Some None ∧
  pad_tb_weights err = pad_tb_weights (<[i := None]> err) ∧
  run_tb_avg avg err = run_tb_avg avg (<[i := None]> err).
Proof.
  intros Hi He.
  assert (Hp : ma_power (Some e) (-2) = None).
  { rewrite ma_power_inverse_square.
    by rewrite (proj2 (Qeq_bool_iff e 0) He). }
  assert (Hinv : (fun x => ma_power x (-2)) <$> <[i := None]> err
                 = (fun x => ma_power x (-2)) <$> err).
  { rewrite list_fmap_insert. apply list_insert_id.
    rewrite list_lookup_fmap, Hi.
    change (Some (ma_power (Some e) (-2)) = Some None). by rewrite Hp. }
  assert (Hw : pad_tb_weights err = pad_tb_weights (<[i := None]> err)).
  { unfold pad_tb_weights. cbn zeta. by rewrite Hinv. }
  split_and!; [| done | unfold run_tb_avg; by rewrite Hw].
  unfold pad_tb_weights. cbn zeta. rewrite !list_lookup_fmap, Hi.
  change (Some (ma_div (ma_power (Some e) (-2))
                  (ma_sum ((fun x => ma_power x (-2)) <$> err))) = Some None).
  by rewrite Hp.
Qed.

Lemma zero_error_channel_is_left_out_witness :
  pad_tb_weights some_errors !! 0%nat = Some None ∧
  pad_tb_weights some_errors = pad_tb_weights (<[0%nat := None]> some_errors) ∧
  run_tb_avg some_averages some_errors
    = run_tb_avg some_averages (<[0%nat := None]> some_errors).
Proof.
  apply (zero_error_channel_is_left_out some_errors some_averages 0 0%Q);
    reflexivity.
Defined.

(** C6, as claimed, fails: in a run whose only firing pad has the same
    time bucket in every event, that pad is valid, its standard error is
    0, its weight is masked like all the others, and the weights have no
    sum at all. *)
Lemma steady_run_has_no_weights :
  ∃ rr, run_results steady_run = Some rr ∧
        mask (num_events steady_run) (channel_row rr 0) = false ∧
        (∃ e, pad_tb_err sqrt6 (num_events steady_run) (channel_row rr 0) = Some e ∧
              (e == 0)%Q) ∧
        ma_sum (pad_tb_weights
                  (pad_tb_err sqrt6 (num_events steady_run)
                     <$> rows (Z.to_nat NUM_CHANNELS) rr)) = None.
Proof.
  eexists. split; [vm_compute; reflexivity|].
  split_and!; [vm_compute; reflexivity | | vm_compute; reflexivity].
  eexists. split; [vm_compute; reflexivity | reflexivity].
Qed.

(** C6, amended.  A channel carries a weight when its standard error is
    a number other than zero: not masked, not nan (both are [None] here)
    and not 0.  When at least one channel carries a weight, the weight of
    every such channel is its [pad_tb_err⁻²] divided by the sum [s] of
    [pad_tb_err⁻²] over these channels, every other channel has a masked
    weight, and the weights that are not masked sum to 1 (over the
    rationals).  When no channel carries a weight, [pad_tb_err⁻²] has no
    sum, the weight of every channel is masked, and the weights have no
    sum. *)
Theorem weights_sum_to_one_or_are_masked (err : list (option Q)) :
  ((∃ i e, err !! i = Some (Some e) ∧ ¬ (e == 0)%Q) →
   ∃ s total,
     ma_sum ((fun x => ma_power x (-2)) <$> err) = Some s ∧
     (∀ j, pad_tb_weights err !! j =
             (fun x => match x with
                       | Some y => if Qeq_bool y 0 then None
                                   else Some (y ^ (-2) / s)%Q
                       | None => None
                       end) <$> err !! j) ∧
     ma_sum (pad_tb_weights err) = Some total ∧ (total == 1)%Q) ∧
  ((∀ i e, err !! i = Some (Some e) → (e == 0)%Q) →
   ma_sum ((fun x => ma_power x (-2)) <$> err) = None ∧
   (∀ j, (j < length err)%nat → pad_tb_weights err !! j = Some None) ∧
   ma_sum (pad_tb_weights err) = None).
Proof.
  split.
  - intros (i & e & Hi & He).
    destruct (inverse_squares_sum _ _ _ Hi He) as (s & Hs & Hpos).
    assert (Hs0 : Qeq_bool s 0 = false).
    { apply Qeq_bool_false_iff. intros E. rewrite E in Hpos.
      by apply Qlt_irrefl in Hpos. }
    pose proof (inverse_squares_nonempty _ _ _ Hi He) as Hne.
    exists s, (Qsum ((fun w => w / s)%Q
                       <$> omap id ((fun x => ma_power x (-2)) <$> err))).
    split_and!; [done | | |].
    + intros j. unfold pad_tb_weights. cbn zeta.
      rewrite Hs, !list_lookup_fmap. destruct (err !! j) as [[y|]|]; [|done..].
      change (Some (ma_div (ma_power (Some y) (-2)) (Some s)) =
              Some (if Qeq_bool y 0 then None else Some (y ^ (-2) / s)%Q)).
      rewrite ma_power_inverse_square. destruct (Qeq_bool y 0); [done|].
      unfold ma_div. cbn. by rewrite Hs0.
    + unfold pad_tb_weights. cbn zeta. rewrite Hs. unfold ma_sum at 1.
      rewrite (unmasked_quotients _ _ Hs0).
      by destruct (omap id _) as [|x xs] eqn:E.
    + rewrite Qsum_scale. unfold ma_sum in Hs.
      destruct (omap id _) as [|x xs]; [done|].
      injection Hs as <-. apply Qmult_inv_r. intros E. rewrite E in Hpos.
      by apply Qlt_irrefl in Hpos.
  - intros Hzero.
    pose proof (inverse_squares_masked _ Hzero) as Hinv.
    assert (Hsum : ma_sum ((fun x => ma_power x (-2)) <$> err) = None)
      by (by rewrite Hinv, ma_sum_replicate_None).
    assert (Hw : pad_tb_weights err = replicate (length err) None).
    { unfold pad_tb_weights. cbn zeta. rewrite Hsum, Hinv.
      by rewrite fmap_replicate. }
    split_and!; [done | |].
    + intros j Hj. rewrite Hw. by apply lookup_replicate_2.
    + by rewrite Hw, ma_sum_replicate_None.
Qed.

Lemma weights_sum_to_one_or_are_masked_witness :
  (∃ s total,
     ma_sum ((fun x => ma_power x (-2)) <$> some_errors) = Some s ∧
     (∀ j, pad_tb_weights some_errors !! j =
             (fun x => match x with
                       | Some y => if Qeq_bool y 0 then None
                                   else Some (y ^ (-2) / s)%Q
                       | None => None
                       end) <$> some_errors !! j) ∧
     ma_sum (pad_tb_weights some_errors) = Some total ∧ (total == 1)%Q) ∧
  (ma_sum ((fun x => ma_power x (-2)) <$> [Some 0%Q; None]) = None ∧
   (∀ j, (j < length [Some 0%Q; None])%nat →
         pad_tb_weights [Some 0%Q; None] !! j = Some None) ∧
   ma_sum (pad_tb_weights [Some 0%Q; None]) = None).
Proof.
  split.
  - apply (weights_sum_to_one_or_are_masked some_errors).
    exists 1%nat, (1 # 2). split; [reflexivity|]. intros H. discriminate H.
  - apply (weights_sum_to_one_or_are_masked [Some 0%Q; None]).
    intros [|[|i]] e Hi; [|done..]. by injection Hi as <-.
Defined.

End WeightClaims.

(** ** RunAggregator: the event loop and the reduction *)

Module RunFacts.
Import Extractor ExtractorFacts Aggregator WeightFacts.

Lemma rows_length {A} n (slices : list (list A)) :
  Forall (fun s => length s = n) slices → length (rows n slices) = n.
Proof.
  induction 1 as [|s slices Hs _ IH]; cbn [rows].
  - apply length_replicate.
  - rewrite length_zip_with, IH, Hs. lia.
Qed.

(** Entry [c] of the view along the first axis collects the entries of
    index [c] of the slices. *)
Lemma rows_lookup {A} (d : A) n (slices : list (list A)) c :
  Forall (fun s => length s = n) slices → (c < n)%nat →
  rows n slices !! c = Some ((fun s => default d (s !! c)) <$> slices).
Proof.
  intros Hall Hc. induction Hall as [|s slices Hs _ IH]; cbn [rows].
  - by apply lookup_replicate_2.
  - rewrite lookup_zip_with, IH.
    destruct (lookup_lt_is_Some_2 s c ltac:(lia)) as [x Hx].
    rewrite fmap_cons, Hx. reflexivity.
Qed.

Lemma pad_times_table pc er : pad_times pc = Some er → table er.
Proof.
  intros H. split; [by eapply pad_times_length|].
  intros c r Hr. pose proof (lookup_lt_Some _ _ _ Hr) as Hc.
  rewrite (pad_times_length _ _ H) in Hc.
  rewrite (pad_times_lookup _ _ _ H Hc) in Hr. injection Hr as <-.
  destruct (filter _ pc) as [|p l] eqn:E; [by left|].
  right. by apply fold_merge_zeros_hit.
Qed.

Lemma zeros_table : table (replicate (Z.to_nat NUM_CHANNELS) zeros).
Proof.
  split; [apply length_replicate|].
  intros c r Hr. apply lookup_replicate in Hr as [-> _]. by left.
Qed.

Lemma event_slice_table f idx er : event_slice f idx = Some er → table er.
Proof.
  unfold event_slice. destruct (cloud f _) as [pc|].
  - apply pad_times_table.
  - intros Heq%(inj Some). subst er. apply zeros_table.
Qed.

Lemma run_results_length f rr :
  run_results f = Some rr → length rr = Z.to_nat (num_events f).
Proof.
  unfold run_results. case_decide; [done|]. intros Hm.
  apply mapM_Some, Forall2_length in Hm. by rewrite <- Hm, length_seqZ.
Qed.

Lemma run_results_nonneg f rr : run_results f = Some rr → (0 ≤ num_events f)%Z.
Proof. unfold run_results. case_decide; [done|lia]. Qed.

Lemma run_results_lookup f rr (idx : Z) :
  run_results f = Some rr → (0 ≤ idx < num_events f)%Z →
  ∃ er, rr !! Z.to_nat idx = Some er ∧ event_slice f idx = Some er.
Proof.
  unfold run_results. case_decide; [done|]. intros Hm Hidx.
  apply mapM_Some in Hm.
  assert (Hl : seqZ 0 (num_events f) !! Z.to_nat idx = Some idx).
  { rewrite lookup_seqZ_lt by lia. f_equal. lia. }
  destruct (Forall2_lookup_l _ _ _ _ _ Hm Hl) as (er & ? & ?). eauto.
Qed.

Lemma run_results_tables f rr : run_results f = Some rr → Forall table rr.
Proof.
  unfold run_results. case_decide; [done|]. intros Hm.
  apply mapM_Some in Hm. induction Hm as [|idx er l k Hx _ IH]; constructor; [|done].
  by eapply event_slice_table.
Qed.

(** The run loop goes through when every cloud of the run files its
    points under existing channels. *)
Lemma run_results_is_Some f :
  (0 ≤ num_events f)%Z →
  (∀ e pc, cloud f e = Some pc →
     Forall (fun p => (- NUM_CHANNELS ≤ int (point5 p) < NUM_CHANNELS)%Z) pc) →
  is_Some (run_results f).
Proof.
  intros Hn Hok. unfold run_results. case_decide; [lia|].
  apply mapM_is_Some, Forall_forall. intros idx _.
  change (is_Some (event_slice f idx)). unfold event_slice.
  destruct (cloud f (min_event f + idx)%Z) as [pc|] eqn:E; [|by eexists].
  unfold pad_times. apply pad_loop_is_Some.
  rewrite length_replicate. eapply Forall_impl; [by eapply Hok|].
  intros p Hp. apply index_is_Some. by rewrite Z2Nat.id.
Qed.

Lemma tables_rows rr c :
  Forall table rr → (c < Z.to_nat NUM_CHANNELS)%nat →
  rows (Z.to_nat NUM_CHANNELS) rr !! c = Some (channel_row rr c).
Proof.
  intros Hall Hc. apply rows_lookup; [|done].
  eapply Forall_impl; [exact Hall|]. by intros er [? _].
Qed.

Lemma channel_row_flags rr c :
  Forall table rr → (c < Z.to_nat NUM_CHANNELS)%nat →
  Forall (fun r => hit_of r = 0%Q ∨ hit_of r = 1%Q) (channel_row rr c).
Proof.
  intros Hall Hc. unfold channel_row. apply Forall_fmap.
  eapply Forall_impl; [exact Hall|]. intros er [Hlen Hhit]. cbn.
  destruct (lookup_lt_is_Some_2 er c ltac:(lia)) as [r Hr].
  rewrite Hr. cbn. eauto.
Qed.

(** The hit column of a channel sums to the number of events with hit
    flag 1. *)
Lemma hit_column_sum (row : list stat) :
  Forall (fun r => hit_of r = 0%Q ∨ hit_of r = 1%Q) row →
  (Qsum (hit_of <$> row) == inject_Z (Z.of_nat (hit_count row)))%Q.
Proof.
  unfold hit_count. induction 1 as [|r row Hr _ IH]; [done|].
  rewrite fmap_cons, filter_cons, Qsum_cons, IH.
  destruct Hr as [-> | ->]; case_decide as Hd; try done.
  - apply Qplus_0_l.
  - cbn [length]. rewrite Nat2Z.inj_succ. unfold Z.succ.
    rewrite inject_Z_plus. apply Qplus_comm.
Qed.

(** The validity mask in the words of the threshold: a channel is masked
    exactly when ten times its hit count is below the event count. *)
Lemma mask_spec (n : Z) (row : list stat) :
  Forall (fun r => hit_of r = 0%Q ∨ hit_of r = 1%Q) row →
  mask n row = bool_decide (10 * Z.of_nat (hit_count row) < n)%Z.
Proof.
  intros Hall. apply eq_true_iff_eq. unfold mask.
  rewrite Qltb_lt, bool_decide_eq_true, (hit_column_sum _ Hall).
  unfold Qlt, Qmult, inject_Z. cbn. lia.
Qed.

Section WithSqrt.
Variable sqrt : Q -> Q.

Lemma reduce_lookup n rr c :
  Forall table rr → (c < Z.to_nat NUM_CHANNELS)%nat →
  ∃ x y, reduce sqrt n rr !! c =
    Some (x, y, if mask n (channel_row rr c) then 0%Q
                else mean (amp_of <$> channel_row rr c)).
Proof.
  intros Hall Hc. unfold reduce. cbn zeta.
  rewrite list_lookup_fmap, (tables_rows _ _ Hall Hc).
  cbn [fmap option_fmap option_map]. eexists _, _. reflexivity.
Qed.

(** A masked channel comes out as three exact zeros. *)
Lemma reduce_masked n rr c :
  Forall table rr → (c < Z.to_nat NUM_CHANNELS)%nat →
  mask n (channel_row rr c) = true →
  reduce sqrt n rr !! c = Some (0%Q, 0%Q, 0%Q).
Proof.
  intros Hall Hc Hm. unfold reduce. cbn zeta.
  rewrite list_lookup_fmap, (tables_rows _ _ Hall Hc).
  cbn [fmap option_fmap option_map].
  generalize (run_tb_avg
    (list_fmap _ _ (pad_tb_avg n) (rows (Z.to_nat NUM_CHANNELS) rr))
    (list_fmap _ _ (pad_tb_err sqrt n) (rows (Z.to_nat NUM_CHANNELS) rr))).
  generalize (run_tb_err sqrt
    (list_fmap _ _ (pad_tb_err sqrt n) (rows (Z.to_nat NUM_CHANNELS) rr))).
  intros r_err r_avg. unfold pad_tb_avg, pad_tb_err. rewrite Hm.
  assert (E1 : ∀ a, ma_sub a None = None) by (by intros []).
  assert (E2 : ∀ a, ma_add a None = None) by (by intros []).
  rewrite E1. change (ma_power None 2) with (@None Q). rewrite E2. done.
Qed.

(** Whatever the statistics of the run are (channels never hit, zero
    standard errors, no valid channel at all), [pulser_results] returns a
    table of [NUM_CHANNELS] rows as soon as the event loop goes through. *)
Lemma pulser_results_returns workspace run f :
  workspace run = Some f → (0 ≤ num_events f)%Z →
  (∀ e pc, cloud f e = Some pc →
     Forall (fun p => (- NUM_CHANNELS ≤ int (point5 p) < NUM_CHANNELS)%Z) pc) →
  ∃ out, pulser_results sqrt workspace run = ([], Some (Some out)) ∧
         length out = Z.to_nat NUM_CHANNELS.
Proof.
  intros Hf Hn Hok. destruct (run_results_is_Some f Hn Hok) as [rr Hrr].
  exists (reduce sqrt (num_events f) rr). split.
  - unfold pulser_results. by rewrite Hf, Hrr.
  - unfold reduce. cbn zeta. rewrite length_fmap. apply rows_length.
    eapply Forall_impl; [by eapply run_results_tables|]. by intros er [? _].
Qed.

End WithSqrt.

End RunFacts.

Module RunClaims.
Import Extractor ExtractorFacts Aggregator WeightFacts RunFacts Samples.

(** C5: in every run, a channel whose number of events with hit flag 1 is
    below 10% of the run's event count (max_event - min_event + 1) has the
    row (0, 0, 0) in the table that [pulser_results] returns: correction
    factor, its error and average amplitude are all exactly zero. *)
Theorem rare_channel_is_zeroed
    (sqrt : Q -> Q) (workspace : Z -> option run_file) (run : Z)
    (f : run_file) (rr : list (list stat)) (c : nat) :
  workspace run = Some f → run_results f = Some rr →
  (c < Z.to_nat NUM_CHANNELS)%nat →
  (10 * Z.of_nat (hit_count (channel_row rr c)) < num_events f)%Z →
  ∃ out, pulser_results sqrt workspace run = ([], Some (Some out)) ∧
         out !! c = Some (0%Q, 0%Q, 0%Q).
Proof.
  intros Hf Hrr Hc Hrare. exists (reduce sqrt (num_events f) rr).
  pose proof (run_results_tables _ _ Hrr) as Hall. split.
  - unfold pulser_results. by rewrite Hf, Hrr.
  - apply reduce_masked; [done | done |].
    rewrite (mask_spec _ _ (channel_row_flags _ _ Hall Hc)).
    by apply bool_decide_eq_true.
Qed.

Lemma rare_channel_is_zeroed_witness :
  ∃ out, pulser_results sqrt6 (fun _ => Some steady_run) 373
           = ([], Some (Some out)) ∧
         out !! 1%nat = Some (0%Q, 0%Q, 0%Q).
Proof.
  assert (∃ rr, run_results steady_run = Some rr ∧
                (10 * Z.of_nat (hit_count (channel_row rr 1))
                 < num_events steady_run)%Z)
    as (rr & Hrr & Hrare)
    by (eexists; split; vm_compute; reflexivity).
  apply (rare_channel_is_zeroed sqrt6 (fun _ => Some steady_run) 373
           steady_run rr 1 eq_refl Hrr); [|exact Hrare].
  unfold NUM_CHANNELS. lia.
Defined.

(** C9: an event number of the run's range that has no point cloud still
    counts as an event of the run.  The run has max_event - min_event + 1
    slices; in the row of every channel the entry of the absent event is
    all zero (hit flag 0, amplitude 0); a channel is masked exactly when
    ten times its hit count is below that full event count; and the
    average amplitude returned for a channel that is not masked is the sum
    of its amplitudes divided by that full event count. *)
Theorem absent_event_dilutes
    (sqrt : Q -> Q) (workspace : Z -> option run_file) (run : Z)
    (f : run_file) (rr : list (list stat)) (idx : Z) (c : nat) :
  workspace run = Some f → run_results f = Some rr →
  (0 ≤ idx < num_events f)%Z → cloud f (min_event f + idx) = None →
  (c < Z.to_nat NUM_CHANNELS)%nat →
  length (channel_row rr c) = Z.to_nat (num_events f) ∧
  channel_row rr c !! Z.to_nat idx = Some (Stat 0 0 0) ∧
  mask (num_events f) (channel_row rr c)
    = bool_decide (10 * Z.of_nat (hit_count (channel_row rr c)) < num_events f)%Z ∧
  ∃ out x y,
    pulser_results sqrt workspace run = ([], Some (Some out)) ∧
    out !! c =
      Some (x, y,
            if mask (num_events f) (channel_row rr c) then 0%Q
            else (Qsum (amp_of <$> channel_row rr c)
                  / inject_Z (num_events f))%Q).
Proof.
  intros Hf Hrr Hidx Habs Hc.
  pose proof (run_results_length _ _ Hrr) as Hlen.
  pose proof (run_results_nonneg _ _ Hrr) as Hn.
  pose proof (run_results_tables _ _ Hrr) as Hall.
  destruct (run_results_lookup _ _ idx Hrr Hidx) as (er & Her & Hslice).
  unfold event_slice in Hslice. rewrite Habs in Hslice.
  apply (inj Some) in Hslice. subst er.
  assert (Hrow : length (channel_row rr c) = Z.to_nat (num_events f)).
  { unfold channel_row. by rewrite length_fmap. }
  split_and!.
  - done.
  - unfold channel_row. rewrite list_lookup_fmap, Her.
    cbn [fmap option_fmap option_map]. by rewrite zeros_lookup.
  - apply mask_spec. by apply channel_row_flags.
  - destruct (reduce_lookup sqrt (num_events f) rr c Hall Hc) as (x & y & Hout).
    exists (reduce sqrt (num_events f) rr), x, y. split.
    + unfold pulser_results. by rewrite Hf, Hrr.
    + rewrite Hout. unfold mean.
      by rewrite length_fmap, Hrow, Z2Nat.id.
Qed.

Lemma absent_event_dilutes_witness :
  ∃ rr, run_results gap_run = Some rr ∧
    length (channel_row rr 0) = Z.to_nat (num_events gap_run) ∧
    channel_row rr 0 !! Z.to_nat 1 = Some (Stat 0 0 0) ∧
    mask (num_events gap_run) (channel_row rr 0)
      = bool_decide (10 * Z.of_nat (hit_count (channel_row rr 0))
                     < num_events gap_run)%Z ∧
    ∃ out x y,
      pulser_results sqrt6 (fun _ => Some gap_run) 373 = ([], Some (Some out)) ∧
      out !! 0%nat =
        Some (x, y,
              if mask (num_events gap_run) (channel_row rr 0) then 0%Q
              else (Qsum (amp_of <$> channel_row rr 0)
                    / inject_Z (num_events gap_run))%Q).
Proof.
  assert (∃ rr, run_results gap_run = Some rr) as (rr & Hrr)
    by (eexists; vm_compute; reflexivity).
  exists rr. split; [exact Hrr|].
  apply (absent_event_dilutes sqrt6 (fun _ => Some gap_run) 373
           gap_run rr 1 0 eq_refl Hrr); [done | reflexivity |].
  unfold NUM_CHANNELS. lia.
Defined.

(** In [gap_run] pad 0 fires with amplitude 50 in the one event that has a
    cloud; it is valid, and its average amplitude is 50 / 2. *)
Example gap_run_amplitude :
  ∃ out x y, pulser_results sqrt6 (fun _ => Some gap_run) 373
               = ([], Some (Some out)) ∧
             out !! 0%nat = Some (x, y, 50 / 2)%Q.
Proof.
  eexists _, _, _. split; vm_compute; reflexivity.
Qed.

End RunClaims.

(** ** MultiRunCalibrator *)

Module CalibratorFacts.
Import Extractor Aggregator Calibrator RunFacts.

Lemma fadd_nan_r a : fadd a NaN = NaN.
Proof. by destruct a. Qed.

(** A sum with a nan among its terms is nan, hence not equal to zero. *)
Lemma fsum_nan (l : list fl) : NaN ∈ l → fsum l = NaN.
Proof.
  induction l as [|a l IH]; [by intros ?%not_elem_of_nil|].
  intros [<- | Hin]%elem_of_cons; cbn [fsum foldr].
  - done.
  - fold (fsum l). rewrite (IH Hin). apply fadd_nan_r.
Qed.

Lemma assign_slice_length (sqrt : Q -> Q) workspace run out r :
  pulser_results sqrt workspace run = (out, Some r) →
  length (assign_slice r) = Z.to_nat NUM_CHANNELS.
Proof.
  unfold pulser_results. destruct (workspace run) as [f|].
  - destruct (run_results f) as [rr|] eqn:Hrr; [|done].
    intros [= <- <-]. unfold assign_slice, reduce. cbn zeta.
    rewrite !length_fmap. apply rows_length.
    eapply Forall_impl; [by eapply run_results_tables|]. by intros er [? _].
  - intros [= <- <-]. apply length_replicate.
Qed.

Section WithFit.
Variable sqrt : Q -> Q.
Variable params : Type.
Variable guess : list fl -> list fl -> list fl -> option params.
Variable fit : params -> list fl -> list fl -> list fl -> option (fl * fl).

Lemma collect_slices workspace runs : ∀ out results,
  collect sqrt workspace runs = (out, Some results) →
  Forall (fun slice => length slice = Z.to_nat NUM_CHANNELS) results.
Proof.
  induction runs as [|run runs IH]; intros out results; cbn [collect].
  - intros [= <- <-]. constructor.
  - destruct (pulser_results sqrt workspace run) as [o [r|]] eqn:Hp; [|done].
    destruct (collect sqrt workspace runs) as [o' [slices|]] eqn:Hc; [|done].
    intros [= <- <-]. constructor; [|by eapply IH].
    by eapply assign_slice_length.
Qed.

(** A run whose file is missing is reported and leaves a slice of nan. *)
Lemma collect_missing workspace runs : ∀ out results (i : nat) run,
  collect sqrt workspace runs = (out, Some results) →
  runs !! i = Some run → workspace run = None →
  run ∈ out ∧
  results !! i = Some (replicate (Z.to_nat NUM_CHANNELS) (NaN, NaN, NaN)).
Proof.
  induction runs as [|r0 runs IH]; intros out results i run; [done|].
  cbn [collect].
  destruct (pulser_results sqrt workspace r0) as [o [r|]] eqn:Hp; [|done].
  destruct (collect sqrt workspace runs) as [o' [slices|]] eqn:Hc; [|done].
  intros [= <- <-] Hi Hw. destruct i as [|i].
  - injection Hi as ->. unfold pulser_results in Hp. rewrite Hw in Hp.
    injection Hp as <- <-. split; [|done]. apply elem_of_app. left. by left.
  - destruct (IH _ _ _ _ eq_refl Hi Hw) as [Hin Hs]. split; [|done].
    apply elem_of_app. by right.
Qed.

(** With a missing run in the range, the amplitudes of every channel sum
    to nan, so that the test that skips silent channels fails for all of
    them. *)
Lemma missing_run_defeats_skip workspace runs out results (i : nat) run pad :
  collect sqrt workspace runs = (out, Some results) →
  runs !! i = Some run → workspace run = None →
  (pad < Z.to_nat NUM_CHANNELS)%nat →
  feq0 (fsum (amp_col <$> pad_row results pad)) = false.
Proof.
  intros Hc Hi Hw Hpad.
  destruct (collect_missing _ _ _ _ _ _ Hc Hi Hw) as [_ Hs].
  rewrite fsum_nan; [done|].
  apply list_elem_of_fmap. exists (NaN, NaN, NaN). split; [done|].
  apply list_elem_of_lookup. exists i. unfold pad_row.
  rewrite list_lookup_fmap, Hs. cbn [fmap option_fmap option_map].
  by rewrite lookup_replicate_2.
Qed.

(** Row [pad] of the fit table is what the loop body makes of
    [results[pad]]. *)
Lemma fits_lookup workspace run_min run_max write_raw out results w pad :
  collect sqrt workspace (seqZ run_min (run_max - run_min + 1)) = (out, Some results) →
  (time_correction_calculator sqrt params guess fit
     workspace run_min run_max write_raw).2 = Some w →
  (pad < Z.to_nat NUM_CHANNELS)%nat →
  time_correction_fits w !! pad = fit_pad sqrt params guess fit (pad_row results pad).
Proof.
  intros Hc Hw Hpad. unfold time_correction_calculator in Hw. cbn zeta in Hw.
  case_decide; [done|]. rewrite Hc in Hw. cbn [snd] in Hw.
  cbn [mbind option_bind] in Hw.
  destruct (mapM _ _) as [fits|] eqn:Hm; [|done].
  injection Hw as <-. cbn [time_correction_fits].
  apply mapM_Some in Hm.
  pose proof (rows_lookup (Fin 0, Fin 0, Fin 0) _ _ pad
                (collect_slices _ _ _ _ Hc) Hpad) as Hrow.
  destruct (Forall2_lookup_l _ _ _ _ _ Hm Hrow) as (y & Hy & Hfit).
  by rewrite Hy, <- Hfit.
Qed.


End WithFit.

End CalibratorFacts.

Module CalibratorClaims.
Import Extractor Aggregator Calibrator RunFacts CalibratorFacts Samples.

(** C2: the claim is that a run without a point-cloud file contributes
    nothing and never makes the batch fail.  On the range 373..374 over a
    run-store that holds run 373 only, run 374 is reported, but its slice
    of the table is filled with nan.  Pad 1, silent in run 373, then has
    amplitudes (0, nan): their sum is not zero, the pad is not skipped,
    and the fit is called on data and weights that contain nan.  With a
    fit that rejects nan, as lmfit does by default, the whole calculation
    raises and nothing is written. *)
Theorem missing_run_leaves_nan :
  ∃ slice results,
    collect sqrt6 only_373 (seqZ 373 (374 - 373 + 1)) = ([374%Z], Some results) ∧
    results = [slice; replicate (Z.to_nat NUM_CHANNELS) (NaN, NaN, NaN)] ∧
    pad_row results 1 = [(Fin 0, Fin 0, Fin 0); (NaN, NaN, NaN)] ∧
    feq0 (fsum (amp_col <$> pad_row results 1)) = false ∧
    (∀ params (guess : list fl -> list fl -> list fl -> option params)
       (fit : params -> list fl -> list fl -> list fl -> option (fl * fl)),
       fit_pad sqrt6 params guess fit (pad_row results 1) =
         (pars ← guess [Fin 0; NaN] [Fin 0; NaN] [Fin 1; NaN];
          fit pars [Fin 0; NaN] [Fin 0; NaN] [Fin 1; NaN])) ∧
    (time_correction_calculator sqrt6 unit line_guess line_fit
       only_373 373 374 true).2 = None.
Proof.
  eexists _, _. split; [vm_compute; reflexivity|].
  split; [reflexivity|].
  match goal with
  | |- pad_row ?r 1 = ?row ∧ _ =>
      assert (Hrow : pad_row r 1 = row) by (vm_compute; reflexivity)
  end.
  split; [exact Hrow|]. rewrite Hrow.
  split_and!; [reflexivity | | vm_compute; reflexivity].
  intros params guess fit. reflexivity.
Qed.

(** C7: a channel whose amplitudes over all the runs of the range sum to
    exactly zero is not fitted: the loop body returns (0, 0) for it
    whatever [guess] and [fit] would do, and its row of the persisted fit
    table is (0, 0). *)
Theorem silent_channel_is_skipped
    (sqrt : Q -> Q) (params : Type)
    (guess : list fl -> list fl -> list fl -> option params)
    (fit : params -> list fl -> list fl -> list fl -> option (fl * fl))
    (workspace : Z -> option run_file) (run_min run_max : Z) (write_raw : bool)
    (out : list Z) (results : list (list cell)) (pad : nat) :
  collect sqrt workspace (seqZ run_min (run_max - run_min + 1)) = (out, Some results) →
  (pad < Z.to_nat NUM_CHANNELS)%nat →
  feq0 (fsum (amp_col <$> pad_row results pad)) = true →
  (∀ params' (guess' : list fl -> list fl -> list fl -> option params')
     (fit' : params' -> list fl -> list fl -> list fl -> option (fl * fl)),
     fit_pad sqrt params' guess' fit' (pad_row results pad) = Some (Fin 0, Fin 0)) ∧
  ∀ w, (time_correction_calculator sqrt params guess fit
          workspace run_min run_max write_raw).2 = Some w →
       time_correction_fits w !! pad = Some (Fin 0, Fin 0).
Proof.
  intros Hc Hpad Hzero.
  assert (Hskip : ∀ params' guess' fit',
            fit_pad sqrt params' guess' fit' (pad_row results pad)
            = Some (Fin 0, Fin 0)).
  { intros p' g' f'. unfold fit_pad. by rewrite Hzero. }
  split; [exact Hskip|].
  intros w Hw. rewrite (fits_lookup _ _ _ _ _ _ _ _ _ _ _ _ Hc Hw Hpad).
  apply Hskip.
Qed.

Lemma silent_channel_is_skipped_witness :
  ∃ w, (time_correction_calculator sqrt6 unit line_guess line_fit
          every_run 373 374 true).2 = Some w ∧
       time_correction_fits w !! 1%nat = Some (Fin 0, Fin 0).
Proof.
  assert (∃ results,
            collect sqrt6 every_run (seqZ 373 (374 - 373 + 1)) = ([], Some results) ∧
            feq0 (fsum (amp_col <$> pad_row results 1)) = true)
    as (results & Hc & Hzero)
    by (eexists; split; vm_compute; reflexivity).
  assert (∃ w, (time_correction_calculator sqrt6 unit line_guess line_fit
                  every_run 373 374 true).2 = Some w) as (w & Hw)
    by (eexists; vm_compute; reflexivity).
  exists w. split; [exact Hw|].
  refine (proj2 (silent_channel_is_skipped sqrt6 unit line_guess line_fit
                   every_run 373 374 true [] results 1 Hc _ Hzero) w Hw).
  unfold NUM_CHANNELS. lia.
Defined.



End CalibratorClaims.

(** ** EarliestHitExtractor: further properties *)

Module ExtractorMore.
Import Extractor ExtractorFacts Wrapping.

(** The table has one row per channel; the row of a channel no point is
    filed under is (0, 0, 0), and the hit flag of every other channel
    is 1. *)
Theorem hit_flag_marks_fired_channels (pc : list point) er c :
  pad_times pc = Some er → (c < Z.to_nat NUM_CHANNELS)%nat →
  length er = Z.to_nat NUM_CHANNELS ∧
  ∃ r, er !! c = Some r ∧
       (channel_tbs pc c = [] → r = zeros) ∧
       (channel_tbs pc c ≠ [] → hit_of r = 1%Q).
Proof.
  intros H Hc. split; [by eapply pad_times_length|].
  eexists. split; [by apply pad_times_lookup|].
  unfold channel_tbs. split.
  - intros ->%fmap_nil_inv. done.
  - intros Hne. apply fold_merge_zeros_hit. intros E. by rewrite E in Hne.
Qed.

Lemma hit_flag_marks_fired_channels_witness :
  ∃ er, pad_times cloud_zero_then_seven = Some er ∧
    length er = Z.to_nat NUM_CHANNELS ∧
    ∃ r, er !! 0%nat = Some r ∧
         (channel_tbs cloud_zero_then_seven 0 = [] → r = zeros) ∧
         (channel_tbs cloud_zero_then_seven 0 ≠ [] → hit_of r = 1%Q).
Proof.
  assert (∃ er, pad_times cloud_zero_then_seven = Some er) as [er Her]
    by (eexists; vm_compute; reflexivity).
  exists er. split; [exact Her|].
  apply (hit_flag_marks_fired_channels cloud_zero_then_seven er 0 Her).
  unfold NUM_CHANNELS. lia.
Defined.

Lemma merge_row_of_lt p q :
  int (point6 p) ≠ 0%Z → (int (point6 q) < int (point6 p))%Z →
  merge (row_of p) q = row_of q.
Proof.
  intros Hp Hlt. unfold merge, row_of. cbn [tb_of hit_of].
  rewrite Qeq_bool_inject_0, (proj2 (Z.eqb_neq _ _) Hp), Qltb_inject.
  by rewrite (proj2 (Z.ltb_lt _ _) Hlt).
Qed.

Lemma merge_row_of_ge p q :
  int (point6 p) ≠ 0%Z → (int (point6 p) ≤ int (point6 q))%Z →
  merge (row_of p) q = row_of p.
Proof.
  intros Hp Hge. unfold merge, row_of. cbn [tb_of hit_of].
  rewrite Qeq_bool_inject_0, (proj2 (Z.eqb_neq _ _) Hp), Qltb_inject.
  by rewrite (proj2 (Z.ltb_ge _ _) Hge).
Qed.

(** The fold over the points of one channel, started at the row of [p]:
    the row it ends with belongs to a point that has a smaller time bucket
    than all the points before it and no larger a time bucket than the
    points after it. *)
Lemma fold_merge_earliest l : ∀ before p mid,
  int (point6 p) ≠ 0%Z →
  Forall (fun q => int (point6 q) ≠ 0%Z) l →
  Forall (fun q => (int (point6 p) < int (point6 q))%Z) before →
  Forall (fun q => (int (point6 p) ≤ int (point6 q))%Z) mid →
  ∃ before' p' after',
    before ++ p :: mid ++ l = before' ++ p' :: after' ∧
    foldl merge (row_of p) l = row_of p' ∧
    Forall (fun q => (int (point6 p') < int (point6 q))%Z) before' ∧
    Forall (fun q => (int (point6 p') ≤ int (point6 q))%Z) after'.
Proof.
  induction l as [|q l IH]; intros before p mid Hp Hl Hb Hm.
  - exists before, p, mid. by rewrite app_nil_r.
  - apply Forall_cons in Hl as [Hq Hl]. cbn [foldl].
    destruct (Z.lt_ge_cases (int (point6 q)) (int (point6 p))) as [Hlt|Hge].
    + rewrite (merge_row_of_lt _ _ Hp Hlt).
      destruct (IH (before ++ p :: mid) q [] Hq Hl) as (b' & p' & a' & E & ?).
      * apply Forall_app. split.
        -- eapply Forall_impl; [exact Hb|]. cbn. intros; lia.
        -- constructor; [done|]. eapply Forall_impl; [exact Hm|]. cbn. intros; lia.
      * constructor.
      * exists b', p', a'. split; [|done]. rewrite <- E.
        by rewrite <- !app_assoc.
    + rewrite (merge_row_of_ge _ _ Hp Hge).
      destruct (IH before p (mid ++ [q]) Hp Hl Hb) as (b' & p' & a' & E & ?).
      * apply Forall_app. split; [done|]. by constructor.
      * exists b', p', a'. split; [|done]. rewrite <- E.
        by rewrite <- !app_assoc.
Qed.

(** On a channel whose points all have a non-zero integer time bucket, the
    recorded row is (time bucket, amplitude, 1) of the channel's earliest
    point, and among points with that same time bucket of the first one in
    cloud order. *)
Theorem earliest_point_is_recorded (pc : list point) er c :
  pad_times pc = Some er → (c < Z.to_nat NUM_CHANNELS)%nat →
  channel_tbs pc c ≠ [] →
  Forall (fun t => t ≠ 0%Z) (channel_tbs pc c) →
  ∃ before p after,
    filter (fun p => on_channel c p = true) pc = before ++ p :: after ∧
    er !! c = Some (Stat (inject_Z (int (point6 p))) (point3 p) 1) ∧
    Forall (fun q => (int (point6 p) < int (point6 q))%Z) before ∧
    Forall (fun q => (int (point6 p) ≤ int (point6 q))%Z) after.
Proof.
  intros H Hc Hne Hnz. rewrite (pad_times_lookup _ _ _ H Hc).
  unfold channel_tbs in *.
  destruct (filter _ pc) as [|p l]; [done|]. clear Hne.
  rewrite fmap_cons in Hnz. apply Forall_cons in Hnz as [Hp Hl].
  rewrite Forall_fmap in Hl.
  destruct (fold_merge_earliest l [] p [] Hp Hl) as (b & p' & a & E & Hf & ? & ?);
    [constructor.. |].
  exists b, p', a. split; [exact E|]. split; [|done].
  cbn [foldl]. change (merge zeros p) with (row_of p). by rewrite Hf.
Qed.

Lemma earliest_point_is_recorded_witness :
  ∃ er before p after,
    pad_times [Point 5 3 9; Point 6 3 4; Point 7 2 1; Point 8 3 4] = Some er ∧
    filter (fun p => on_channel 3 p = true)
      [Point 5 3 9; Point 6 3 4; Point 7 2 1; Point 8 3 4] = before ++ p :: after ∧
    er !! 3%nat = Some (Stat (inject_Z (int (point6 p))) (point3 p) 1) ∧
    Forall (fun q => (int (point6 p) < int (point6 q))%Z) before ∧
    Forall (fun q => (int (point6 p) ≤ int (point6 q))%Z) after.
Proof.
  assert (∃ er, pad_times [Point 5 3 9; Point 6 3 4; Point 7 2 1; Point 8 3 4]
                = Some er) as [er Her]
    by (eexists; vm_compute; reflexivity).
  exists er.
  destruct (earliest_point_is_recorded _ er 3 Her) as (b & p & a & H).
  - unfold NUM_CHANNELS. lia.
  - vm_compute. discriminate.
  - vm_compute. repeat constructor; discriminate.
  - exists b, p, a. split; [exact Her | exact H].
Defined.

(** The row of a channel depends on the points filed under that channel
    only: two clouds with the same points on channel [c], in the same
    order, give channel [c] the same row, whatever their other points. *)
Theorem channels_are_independent (pc pc' : list point) er er' c :
  pad_times pc = Some er → pad_times pc' = Some er' →
  (c < Z.to_nat NUM_CHANNELS)%nat →
  filter (fun p => on_channel c p = true) pc
    = filter (fun p => on_channel c p = true) pc' →
  er !! c = er' !! c.
Proof.
  intros H H' Hc Hsame.
  by rewrite (pad_times_lookup _ _ _ H Hc), (pad_times_lookup _ _ _ H' Hc), Hsame.
Qed.

Lemma channels_are_independent_witness :
  ∃ er er',
    pad_times [Point 5 3 9; Point 7 2 1; Point 6 3 4] = Some er ∧
    pad_times [Point 9 8 2; Point 5 3 9; Point 6 3 4; Point 1 (-1) 7] = Some er' ∧
    er !! 3%nat = er' !! 3%nat.
Proof.
  assert (∃ er, pad_times [Point 5 3 9; Point 7 2 1; Point 6 3 4] = Some er)
    as [er Her] by (eexists; vm_compute; reflexivity).
  assert (∃ er', pad_times [Point 9 8 2; Point 5 3 9; Point 6 3 4; Point 1 (-1) 7]
                 = Some er')
    as [er' Her'] by (eexists; vm_compute; reflexivity).
  exists er, er'. split; [exact Her|]. split; [exact Her'|].
  apply (channels_are_independent _ _ er er' 3 Her Her').
  - unfold NUM_CHANNELS. lia.
  - vm_compute. reflexivity.
Defined.

Lemma index_wrap (n : nat) (i : Z) :
  (- Z.of_nat n ≤ i < 0)%Z → index n (i + Z.of_nat n) = index n i.
Proof.
  intros Hi. unfold index. repeat case_decide; try lia. done.
Qed.

Lemma pad_step_wrapped er p :
  length er = Z.to_nat NUM_CHANNELS → pad_step er (wrapped p) = pad_step er p.
Proof.
  intros Hlen. unfold wrapped. case_decide as Hneg; [|done].
  unfold pad_step. cbn [point3 point5 point6]. rewrite int_inject.
  replace NUM_CHANNELS with (Z.of_nat (length er)) at 1
    by (rewrite Hlen, Z2Nat.id; done).
  rewrite index_wrap; [done|]. rewrite Hlen, Z2Nat.id; done.
Qed.

Lemma pad_loop_wrapped pc : ∀ er,
  length er = Z.to_nat NUM_CHANNELS →
  pad_loop er (wrapped <$> pc) = pad_loop er pc.
Proof.
  induction pc as [|p pc IH]; intros er Hlen; [done|].
  rewrite fmap_cons. cbn [pad_loop]. rewrite (pad_step_wrapped _ _ Hlen).
  destruct (pad_step er p) as [er1|] eqn:E; [|done]. cbn.
  apply IH. by rewrite (pad_step_length _ _ _ E).
Qed.

(** A pad id in [-NUM_CHANNELS, 0) is not rejected: its point is filed
    under pad id + NUM_CHANNELS, exactly as if it had carried that id. *)
Theorem negative_pad_ids_wrap (pc : list point) :
  pad_times (wrapped <$> pc) = pad_times pc.
Proof. apply pad_loop_wrapped, length_replicate. Qed.

End ExtractorMore.

(** ** RunAggregator: further properties *)

Module RunMore.
Import Extractor ExtractorFacts Aggregator WeightFacts RunFacts Samples MoreSamples.

(** The event loop goes through when the clouds it reads, those of the
    events of the range, have their pad ids within the table. *)
Lemma run_results_returns_in_range f :
  (0 ≤ num_events f)%Z →
  (∀ idx pc, (0 ≤ idx < num_events f)%Z →
     cloud f (min_event f + idx) = Some pc →
     Forall (fun p => (- NUM_CHANNELS ≤ int (point5 p) < NUM_CHANNELS)%Z) pc) →
  is_Some (run_results f).
Proof.
  intros Hn Hok. unfold run_results. case_decide; [lia|].
  apply mapM_is_Some, Forall_forall. intros idx Hin%elem_of_seqZ.
  change (is_Some (event_slice f idx)). unfold event_slice.
  destruct (cloud f (min_event f + idx)%Z) as [pc|] eqn:E; [|by eexists].
  unfold pad_times. apply pad_loop_is_Some.
  rewrite length_replicate. eapply Forall_impl; [eapply Hok; [|done]; lia|].
  intros p Hp. apply index_is_Some. by rewrite Z2Nat.id.
Qed.

Section WithSqrt.
Variable sqrt : Q -> Q.

(** When the point-cloud file of the run exists, [pulser_results] prints
    nothing.  It raises when the event range is negative (max_event <
    min_event - 1).  It returns a table of [NUM_CHANNELS] rows when the
    event range is not negative and every cloud stored for an event of
    the range has all its pad ids in [-NUM_CHANNELS, NUM_CHANNELS):
    events of the range without a cloud are passed over, and clouds
    stored under event numbers outside the range are not read. *)
Theorem pulser_results_returns_in_range workspace run f :
  workspace run = Some f →
  (pulser_results sqrt workspace run).1 = [] ∧
  ((num_events f < 0)%Z → (pulser_results sqrt workspace run).2 = None) ∧
  ((0 ≤ num_events f)%Z →
   (∀ idx pc, (0 ≤ idx < num_events f)%Z →
      cloud f (min_event f + idx) = Some pc →
      Forall (fun p => (- NUM_CHANNELS ≤ int (point5 p) < NUM_CHANNELS)%Z) pc) →
   ∃ out, (pulser_results sqrt workspace run).2 = Some (Some out) ∧
          length out = Z.to_nat NUM_CHANNELS).
Proof.
  intros Hf. unfold pulser_results. rewrite Hf. cbn [fst snd].
  split; [done|]. split.
  - intros Hneg. unfold run_results. by case_decide.
  - intros Hn Hok.
    destruct (run_results_returns_in_range f Hn Hok) as [rr Hrr].
    rewrite Hrr. cbn. eexists. split; [done|].
    unfold reduce. cbn zeta. rewrite length_fmap. apply rows_length.
    eapply Forall_impl; [by eapply run_results_tables|]. by intros er [? _].
Qed.

End WithSqrt.

Lemma pulser_results_returns_in_range_witness :
  (pulser_results sqrt6 (fun _ => Some wrapped_run) 373).1 = [] ∧
  ((num_events wrapped_run < 0)%Z →
   (pulser_results sqrt6 (fun _ => Some wrapped_run) 373).2 = None) ∧
  ∃ out, (pulser_results sqrt6 (fun _ => Some wrapped_run) 373).2
           = Some (Some out) ∧
         length out = Z.to_nat NUM_CHANNELS.
Proof.
  destruct (pulser_results_returns_in_range sqrt6 (fun _ => Some wrapped_run)
              373 wrapped_run eq_refl) as (Hout & Hneg & Hret).
  split; [exact Hout|]. split; [exact Hneg|].
  apply Hret; [discriminate|].
  intros idx pc Hidx. change (num_events wrapped_run) with 2%Z in Hidx.
  assert (idx = 0 ∨ idx = 1)%Z as [-> | ->] by lia.
  - discriminate.
  - intros [= <-]. constructor; [|constructor].
    vm_compute. split; [discriminate | reflexivity].
Defined.

End RunMore.

(** ** RunAggregator: the run-wide reference *)

Module ReferenceFacts.
Import Extractor ExtractorFacts Aggregator WeightFacts RunFacts Samples MoreSamples.

Lemma ma_sum_Some (l : list (option Q)) s :
  ma_sum l = Some s → s = Qsum (omap id l) ∧ omap id l ≠ [].
Proof. unfold ma_sum. destruct (omap id l); [done|]. by intros [= <-]. Qed.

Lemma ma_sum_masked (l : list (option Q)) :
  Forall (fun x => x = None) l → ma_sum l = None.
Proof.
  intros Hall. unfold ma_sum.
  assert (E : omap id l = []); [|by rewrite E].
  induction Hall as [|x l -> _ IH]; [done|]. by rewrite unmasked_cons.
Qed.

(** Every weight that is not masked is positive, and belongs to a channel
    whose standard error is neither masked nor zero. *)
Lemma pad_tb_weights_pos (err : list (option Q)) i y :
  pad_tb_weights err !! i = Some (Some y) →
  (0 < y)%Q ∧ ∃ e, err !! i = Some (Some e) ∧ ¬ (e == 0)%Q.
Proof.
  unfold pad_tb_weights. cbn zeta. rewrite !list_lookup_fmap.
  destruct (err !! i) as [oe|] eqn:Hi; [|done].
  cbn [fmap option_fmap option_map]. intros [= Hy].
  rewrite ma_power_inverse_square in Hy.
  destruct oe as [e|]; [|done].
  destruct (Qeq_bool e 0) eqn:He; [done|].
  apply Qeq_bool_false_iff in He.
  destruct (inverse_squares_sum _ _ _ Hi He) as (s & Hs & Hpos).
  rewrite Hs in Hy. unfold ma_div in Hy. cbn in Hy.
  destruct (Qeq_bool s 0); [done|]. injection Hy as <-.
  split; [|eauto]. apply Qlt_shift_div_l; [done|].
  rewrite Qmult_0_l. by apply inverse_square_pos.
Qed.

(** Numerator and denominator of [np.ma.average], entry by entry. *)
Lemma average_terms lo hi : ∀ (a w : list (option Q)),
  (∀ i x y, a !! i = Some (Some x) → w !! i = Some (Some y) →
            (0 < y)%Q ∧ (lo <= x)%Q ∧ (x <= hi)%Q) →
  let wgt := zip_with (fun x w => _ ← x; w) a w in
  let den := Qsum (omap id wgt) in
  let num := Qsum (omap id (zip_with ma_mul a wgt)) in
  (0 <= den)%Q ∧ (lo * den <= num)%Q ∧ (num <= hi * den)%Q.
Proof.
  induction a as [|ox a IH]; intros w Hb; cbn zeta.
  - cbn. lra.
  - destruct w as [|oy w]; [cbn; lra|].
    specialize (IH w (fun i => Hb (S i))). cbn zeta in IH.
    destruct IH as (Hd & Hlo & Hhi).
    cbn [zip_with]. destruct ox as [x|]; [destruct oy as [y|]|];
      cbn [mbind option_bind]; rewrite !unmasked_cons.
    + destruct (Hb 0%nat x y eq_refl eq_refl) as (Hy & Hx1 & Hx2).
      change (ma_mul (Some x) (Some y)) with (Some (x * y)%Q).
      rewrite !Qsum_cons.
      set (d := Qsum _) in *. set (n := Qsum _) in *. nra.
    + change (ma_mul (Some x) None) with (@None Q). done.
    + change (ma_mul None None) with (@None Q). done.
Qed.

Lemma ma_average_bounds lo hi (a w : list (option Q)) ref :
  (∀ i x y, a !! i = Some (Some x) → w !! i = Some (Some y) →
            (0 < y)%Q ∧ (lo <= x)%Q ∧ (x <= hi)%Q) →
  ma_average a w = Some ref → (lo <= ref)%Q ∧ (ref <= hi)%Q.
Proof.
  intros Hb. pose proof (average_terms lo hi a w Hb) as Ht. cbn zeta in Ht.
  destruct Ht as (Hd & Hlo & Hhi).
  unfold ma_average. cbn zeta.
  destruct (ma_sum (zip_with ma_mul a _)) as [n|] eqn:Hn; [|done].
  destruct (ma_sum (zip_with _ a w)) as [d|] eqn:Hden; [|done].
  apply ma_sum_Some in Hn as [-> _]. apply ma_sum_Some in Hden as [-> _].
  unfold ma_div. cbn [mbind option_bind].
  destruct (Qeq_bool _ 0) eqn:E0; [done|]. intros [= <-].
  apply Qeq_bool_false_iff in E0.
  set (d := Qsum _) in *. set (n := Qsum _) in *.
  assert (Hpos : (0 < d)%Q).
  { apply Qle_lteq in Hd as [Hd|Hd]; [done|]. exfalso. apply E0. by symmetry. }
  split; [by apply Qle_shift_div_l | by apply Qle_shift_div_r].
Qed.

Lemma run_tb_avg_masked (avg err : list (option Q)) :
  Forall (fun e => e = None) err → run_tb_avg avg err = None.
Proof.
  intros Hall. unfold run_tb_avg, ma_average. cbn zeta.
  assert (Hw : Forall (fun x : option Q => x = None) (pad_tb_weights err)).
  { unfold pad_tb_weights. cbn zeta. rewrite !Forall_fmap.
    eapply Forall_impl; [exact Hall|]. by intros ? ->. }
  assert (Hwgt : Forall (fun x : option Q => x = None)
            (zip_with (fun (x w : option Q) => _ ← x; w) avg (pad_tb_weights err))).
  { revert Hw. generalize (pad_tb_weights err). intros w Hw. revert avg.
    induction Hw as [|y w -> _ IH]; intros [|x avg]; cbn [zip_with];
      try constructor; [by destruct x | apply IH]. }
  rewrite (ma_sum_masked _ Hwgt). by destruct (ma_sum _).
Qed.

Section WithSqrt.
Variable sqrt : Q -> Q.

Lemma run_tb_err_masked (err : list (option Q)) :
  Forall (fun e => e = None) err → run_tb_err sqrt err = None.
Proof.
  intros Hall. unfold run_tb_err. rewrite ma_sum_masked; [done|].
  rewrite Forall_fmap. eapply Forall_impl; [exact Hall|]. by intros ? ->.
Qed.

End WithSqrt.

Lemma run_tb_avg_bounds (avg err : list (option Q)) (ref lo hi : Q) :
  run_tb_avg avg err = Some ref →
  (∀ i x e, avg !! i = Some (Some x) → err !! i = Some (Some e) →
            ¬ (e == 0)%Q → (lo <= x)%Q ∧ (x <= hi)%Q) →
  (lo <= ref)%Q ∧ (ref <= hi)%Q.
Proof.
  intros Href Hb. unfold run_tb_avg in Href.
  apply (ma_average_bounds lo hi _ _ _) in Href; [done|].
  intros i x y Hx Hy.
  destruct (pad_tb_weights_pos _ _ _ Hy) as (Hpos & e & He & Hne).
  split; [done|]. by eapply Hb.
Qed.

End ReferenceFacts.

Module ReferenceMore.
Import Extractor ExtractorFacts Aggregator WeightFacts RunFacts ReferenceFacts.
Import Samples MoreSamples.

(** The run-wide reference time lies between the smallest and the largest
    mean time bucket of the channels that carry a weight, that is, of the
    valid channels with a non-zero standard error. *)
Theorem reference_is_between_channel_means
    (avg err : list (option Q)) (ref lo hi : Q) :
  run_tb_avg avg err = Some ref →
  (∀ i x e, avg !! i = Some (Some x) → err !! i = Some (Some e) →
            ¬ (e == 0)%Q → (lo <= x)%Q ∧ (x <= hi)%Q) →
  (lo <= ref)%Q ∧ (ref <= hi)%Q.
Proof. apply run_tb_avg_bounds. Qed.

Lemma reference_is_between_channel_means_witness :
  ∃ ref, run_tb_avg some_averages some_errors = Some ref ∧
         (99 <= ref)%Q ∧ (ref <= 101)%Q.
Proof.
  assert (∃ ref, run_tb_avg some_averages some_errors = Some ref) as [ref Href]
    by (eexists; vm_compute; reflexivity).
  exists ref. split; [exact Href|].
  apply (reference_is_between_channel_means some_averages some_errors ref 99 101 Href).
  intros [|[|[|[|i]]]] x e Hx He Hne; cbn in Hx, He; simplify_eq.
  - exfalso. by apply Hne.
  - split; discriminate.
  - split; discriminate.
Defined.

Section WithSqrt.
Variable sqrt : Q -> Q.

(** If the valid channels of a run all have the same mean time bucket,
    the correction factor of every channel of the run is zero. *)
Theorem aligned_channels_need_no_correction
    (workspace : Z -> option run_file) (run : Z) (f : run_file)
    (rr : list (list stat)) (t : Q) :
  workspace run = Some f → run_results f = Some rr →
  (∀ c x, (c < Z.to_nat NUM_CHANNELS)%nat →
          pad_tb_avg (num_events f) (channel_row rr c) = Some x → (x == t)%Q) →
  ∃ out, pulser_results sqrt workspace run = ([], Some (Some out)) ∧
         ∀ c, (c < Z.to_nat NUM_CHANNELS)%nat →
              ∃ x y z, out !! c = Some (x, y, z) ∧ (x == 0)%Q.
Proof.
  intros Hf Hrr Hsame. exists (reduce sqrt (num_events f) rr). split.
  { unfold pulser_results. by rewrite Hf, Hrr. }
  intros c Hc. pose proof (run_results_tables _ _ Hrr) as Hall.
  unfold reduce. cbn zeta.
  rewrite list_lookup_fmap, (tables_rows _ _ Hall Hc).
  cbn [fmap option_fmap option_map]. eexists _, _, _. split; [reflexivity|].
  destruct (pad_tb_avg (num_events f) (channel_row rr c)) as [a|] eqn:Ha.
  2:{ by destruct (run_tb_avg _ _). }
  destruct (run_tb_avg _ _) as [ref|] eqn:Href; [|done].
  cbn. apply (run_tb_avg_bounds _ _ _ t t) in Href.
  - destruct Href as [H1 H2]. rewrite (Hsame _ _ Hc Ha). lra.
  - intros i x e Hx _ _. rewrite list_lookup_fmap in Hx.
    destruct (rows _ rr !! i) as [row|] eqn:Hrow; [|done].
    pose proof (lookup_lt_Some _ _ _ Hrow) as Hi.
    rewrite rows_length in Hi
      by (eapply Forall_impl; [exact Hall|]; by intros er [? _]).
    rewrite (tables_rows _ _ Hall Hi) in Hrow. injection Hrow as <-.
    cbn in Hx. injection Hx as Hx. rewrite (Hsame _ _ Hi Hx). lra.
Qed.

(** A run of a single event carries no timing information: the standard
    error of every channel is undefined, no channel has a weight, and the
    correction factor and its error are exactly 0 for every channel. *)
Theorem single_event_run_has_no_corrections
    (workspace : Z -> option run_file) (run : Z) (f : run_file)
    (rr : list (list stat)) :
  workspace run = Some f → run_results f = Some rr →
  num_events f = 1%Z →
  ∃ out, pulser_results sqrt workspace run = ([], Some (Some out)) ∧
         ∀ c, (c < Z.to_nat NUM_CHANNELS)%nat →
              ∃ a, out !! c = Some (0%Q, 0%Q, a).
Proof.
  intros Hf Hrr Hone. exists (reduce sqrt (num_events f) rr). split.
  { unfold pulser_results. by rewrite Hf, Hrr. }
  pose proof (run_results_tables _ _ Hrr) as Hall.
  pose proof (run_results_length _ _ Hrr) as Hlen. rewrite Hone in Hlen.
  assert (Hsizes : Forall (fun er : list stat => length er = Z.to_nat NUM_CHANNELS) rr)
    by (eapply Forall_impl; [exact Hall|]; by intros er [? _]).
  assert (Herr : ∀ c, (c < Z.to_nat NUM_CHANNELS)%nat →
            pad_tb_err sqrt (num_events f) (channel_row rr c) = None).
  { intros c Hc. unfold pad_tb_err, sem. cbn zeta.
    destruct (mask _ _); [done|].
    rewrite length_fmap. unfold channel_row. rewrite length_fmap, Hlen.
    by case_decide. }
  assert (Hnone : Forall (fun e => e = None)
            (pad_tb_err sqrt (num_events f) <$> rows (Z.to_nat NUM_CHANNELS) rr)).
  { apply Forall_fmap, Forall_lookup. intros i row Hrow.
    pose proof (lookup_lt_Some _ _ _ Hrow) as Hi.
    rewrite (rows_length _ _ Hsizes) in Hi.
    rewrite (tables_rows _ _ Hall Hi) in Hrow. injection Hrow as <-.
    by apply Herr. }
  intros c Hc. unfold reduce. cbn zeta.
  rewrite list_lookup_fmap, (tables_rows _ _ Hall Hc).
  cbn [fmap option_fmap option_map].
  rewrite (run_tb_avg_masked _ _ Hnone), (run_tb_err_masked sqrt _ Hnone).
  rewrite (Herr c Hc). eexists. reflexivity.
Qed.

End WithSqrt.

Lemma means_equal_spec n t rr :
  Forall table rr → means_equal n t (rows (Z.to_nat NUM_CHANNELS) rr) = true →
  ∀ c x, (c < Z.to_nat NUM_CHANNELS)%nat →
         pad_tb_avg n (channel_row rr c) = Some x → (x == t)%Q.
Proof.
  intros Hall Hcheck c x Hc Hx. unfold means_equal in Hcheck.
  rewrite forallb_forall in Hcheck.
  specialize (Hcheck (channel_row rr c)). rewrite Hx in Hcheck.
  apply Qeq_bool_iff, Hcheck, list_elem_of_In.
  eapply list_elem_of_lookup_2. by apply tables_rows.
Qed.

Lemma aligned_channels_need_no_correction_witness :
  ∃ out, pulser_results sqrt6 (fun _ => Some aligned_run) 373
           = ([], Some (Some out)) ∧
         ∀ c, (c < Z.to_nat NUM_CHANNELS)%nat →
              ∃ x y z, out !! c = Some (x, y, z) ∧ (x == 0)%Q.
Proof.
  assert (∃ rr, run_results aligned_run = Some rr ∧
                means_equal (num_events aligned_run) 101
                  (rows (Z.to_nat NUM_CHANNELS) rr) = true)
    as (rr & Hrr & Hcheck)
    by (eexists; split; vm_compute; reflexivity).
  apply (aligned_channels_need_no_correction sqrt6 (fun _ => Some aligned_run)
           373 aligned_run rr 101 eq_refl Hrr).
  apply means_equal_spec; [|exact Hcheck]. by eapply run_results_tables.
Defined.

Lemma single_event_run_has_no_corrections_witness :
  ∃ out, pulser_results sqrt6 (fun _ => Some single_event_run) 373
           = ([], Some (Some out)) ∧
         ∀ c, (c < Z.to_nat NUM_CHANNELS)%nat →
              ∃ a, out !! c = Some (0%Q, 0%Q, a).
Proof.
  assert (∃ rr, run_results single_event_run = Some rr) as (rr & Hrr)
    by (eexists; vm_compute; reflexivity).
  apply (single_event_run_has_no_corrections sqrt6
           (fun _ => Some single_event_run) 373 single_event_run rr
           eq_refl Hrr eq_refl).
Defined.

End ReferenceMore.

(** ** MultiRunCalibrator: further properties *)

Module CalibratorMore.
Import Extractor Aggregator Calibrator RunFacts CalibratorFacts Samples Missing.

Lemma fsum_zeros (l : list fl) :
  Forall (fun a => a = Fin 0) l → feq0 (fsum l) = true.
Proof.
  intros Hall.
  assert (∃ q, fsum l = Fin q ∧ (q == 0)%Q) as (q & -> & Hq).
  { induction Hall as [|a l -> _ (q & Hq & H0)]; [by exists 0%Q|].
    cbn [fsum foldr]. fold (fsum l). rewrite Hq. cbn [fadd].
    eexists. split; [done|]. rewrite H0. reflexivity. }
  by apply Qeq_bool_iff.
Qed.

Section WithFit.
Variable sqrt : Q -> Q.
Variable params : Type.
Variable guess : list fl -> list fl -> list fl -> option params.
Variable fit : params -> list fl -> list fl -> list fl -> option (fl * fl).

Lemma collect_length workspace runs : ∀ out results,
  collect sqrt workspace runs = (out, Some results) →
  length results = length runs.
Proof.
  induction runs as [|run runs IH]; intros out results; cbn [collect].
  - by intros [= <- <-].
  - destruct (pulser_results sqrt workspace run) as [o [r|]] eqn:Hp; [|done].
    destruct (collect sqrt workspace runs) as [o' [slices|]] eqn:Hc; [|done].
    intros [= <- <-]. cbn. f_equal. by eapply IH.
Qed.

Lemma collect_printed workspace runs : ∀ out results,
  collect sqrt workspace runs = (out, Some results) →
  out = filter (fun run => missing workspace run = true) runs.
Proof.
  induction runs as [|run runs IH]; intros out results; cbn [collect].
  - by intros [= <- <-].
  - destruct (pulser_results sqrt workspace run) as [o [r|]] eqn:Hp; [|done].
    destruct (collect sqrt workspace runs) as [o' [slices|]] eqn:Hc; [|done].
    intros [= <- <-]. rewrite filter_cons, <- (IH _ _ eq_refl).
    unfold pulser_results in Hp. unfold missing.
    destruct (workspace run); injection Hp as <- _; by case_decide.
Qed.

Lemma collect_present workspace runs : ∀ out results (i : nat) run f rr,
  collect sqrt workspace runs = (out, Some results) →
  runs !! i = Some run → workspace run = Some f → run_results f = Some rr →
  results !! i = Some (assign_slice (Some (reduce sqrt (num_events f) rr))).
Proof.
  induction runs as [|r0 runs IH]; intros out results i run f rr; [done|].
  cbn [collect].
  destruct (pulser_results sqrt workspace r0) as [o [r|]] eqn:Hp; [|done].
  destruct (collect sqrt workspace runs) as [o' [slices|]] eqn:Hc; [|done].
  intros [= <- <-] Hi Hw Hrr. destruct i as [|i].
  - injection Hi as ->. unfold pulser_results in Hp. rewrite Hw, Hrr in Hp.
    by injection Hp as <- <-.
  - cbn in Hi. cbn. eapply IH; [reflexivity | exact Hi | exact Hw | exact Hrr].
Qed.

Lemma fit_table workspace run_min run_max write_raw out results :
  (run_min ≤ run_max + 1)%Z →
  collect sqrt workspace (seqZ run_min (run_max - run_min + 1)) = (out, Some results) →
  time_correction_calculator sqrt params guess fit workspace run_min run_max write_raw
  = (out,
     fit_results ← mapM (fit_pad sqrt params guess fit)
                        (rows (Z.to_nat NUM_CHANNELS) results);
     Some (Written fit_results (if write_raw then Some results else None))).
Proof.
  intros Hn Hc. unfold time_correction_calculator. cbn zeta.
  case_decide; [lia|]. by rewrite Hc.
Qed.

(** Row [pad] of the cross-run table, when every run of the range has a
    file and [pad] is below the hit threshold in each of them: all
    zeros. *)
Lemma rare_pad_row workspace runs out results pad :
  collect sqrt workspace runs = (out, Some results) →
  (pad < Z.to_nat NUM_CHANNELS)%nat →
  (∀ run, run ∈ runs → ∃ f rr,
     workspace run = Some f ∧ run_results f = Some rr ∧
     (10 * Z.of_nat (hit_count (channel_row rr pad)) < num_events f)%Z) →
  Forall (fun c => c = (Fin 0, Fin 0, Fin 0)) (pad_row results pad).
Proof.
  intros Hc Hpad Hrare. unfold pad_row. apply Forall_fmap, Forall_lookup.
  intros i slice Hi. cbn.
  assert (is_Some (runs !! i)) as [run Hrun].
  { apply lookup_lt_is_Some. rewrite <- (collect_length _ _ _ _ Hc).
    by eapply lookup_lt_Some. }
  destruct (Hrare run (list_elem_of_lookup_2 _ _ _ Hrun)) as (f & rr & Hf & Hrr & Hlow).
  rewrite (collect_present _ _ _ _ _ _ _ _ Hc Hrun Hf Hrr) in Hi.
  injection Hi as <-. unfold assign_slice.
  rewrite list_lookup_fmap, reduce_masked; [done | | done |].
  - by eapply run_results_tables.
  - rewrite mask_spec
      by (apply channel_row_flags; [by eapply run_results_tables | done]).
    by apply bool_decide_eq_true.
Qed.

(** A run of the range that has no point-cloud file is printed as not
    found, the loop goes on, and the run's position in the cross-run table
    is filled with nan; the amplitudes of every channel then sum to nan,
    so that no channel at all is skipped by the fit loop. *)
Theorem missing_run_is_printed_and_poisons
    workspace run_min run_max out results run :
  collect sqrt workspace (seqZ run_min (run_max - run_min + 1)) = (out, Some results) →
  (run_min ≤ run ≤ run_max)%Z → workspace run = None →
  run ∈ out ∧
  results !! Z.to_nat (run - run_min)
    = Some (replicate (Z.to_nat NUM_CHANNELS) (NaN, NaN, NaN)) ∧
  ∀ pad, (pad < Z.to_nat NUM_CHANNELS)%nat →
         feq0 (fsum (amp_col <$> pad_row results pad)) = false.
Proof.
  intros Hc Hrun Hw.
  assert (Hi : seqZ run_min (run_max - run_min + 1) !! Z.to_nat (run - run_min)
               = Some run).
  { rewrite lookup_seqZ_lt by lia. f_equal. lia. }
  destruct (collect_missing _ _ _ _ _ _ _ Hc Hi Hw) as [Hin Hs].
  split_and!; [done | done |].
  intros pad Hpad. by eapply missing_run_defeats_skip.
Qed.

(** When every run of the range could be reduced, the loop has handled
    all of them: the cross-run table has one slice of [NUM_CHANNELS] rows
    per run of the range, and what was printed is the list of the runs
    without a file, in run order. *)
Theorem every_run_gets_a_slice workspace run_min run_max out results :
  collect sqrt workspace (seqZ run_min (run_max - run_min + 1)) = (out, Some results) →
  length results = Z.to_nat (run_max - run_min + 1) ∧
  Forall (fun slice => length slice = Z.to_nat NUM_CHANNELS) results ∧
  out = filter (fun run => missing workspace run = true)
               (seqZ run_min (run_max - run_min + 1)).
Proof.
  intros Hc. split_and!.
  - by rewrite (collect_length _ _ _ _ Hc), length_seqZ.
  - by eapply collect_slices.
  - by eapply collect_printed.
Qed.

(** An empty range (run_max = run_min - 1) is not an error: no run is
    read, nothing is printed, and a fit table of [NUM_CHANNELS] rows
    (0, 0) is written, with an empty raw table if it was asked for.  A
    range shorter than that raises before anything is read. *)
Theorem empty_range workspace run_min run_max write_raw :
  (run_max < run_min)%Z →
  time_correction_calculator sqrt params guess fit
    workspace run_min run_max write_raw
  = ([],
     if decide (run_max = run_min - 1)%Z
     then Some (Written (replicate (Z.to_nat NUM_CHANNELS) (Fin 0, Fin 0))
                        (if write_raw then Some [] else None))
     else None).
Proof.
  intros Hlt. unfold time_correction_calculator. cbn zeta.
  case_decide as Hn; case_decide as He; try lia; [done|].
  replace (run_max - run_min + 1)%Z with 0%Z by lia.
  change (seqZ run_min 0) with (@nil Z). cbn [collect rows mbind option_bind].
  assert (Hfits : ∀ n, mapM (fit_pad sqrt params guess fit) (replicate n [])
                       = Some (replicate n (Fin 0, Fin 0))).
  { induction n as [|n IH]; [done|].
    cbn [replicate].
    change (mapM (fit_pad sqrt params guess fit) ([] :: replicate n []))
      with (y ← fit_pad sqrt params guess fit [];
            k ← mapM (fit_pad sqrt params guess fit) (replicate n []);
            Some (y :: k)).
    by rewrite IH. }
  by rewrite Hfits.
Qed.

(** The fit table has one row per channel, the raw table is written
    exactly when it was asked for, and asking for it does not change the
    fit table. *)
Theorem written_tables workspace run_min run_max write_raw out results w :
  collect sqrt workspace (seqZ run_min (run_max - run_min + 1)) = (out, Some results) →
  (time_correction_calculator sqrt params guess fit
     workspace run_min run_max write_raw).2 = Some w →
  length (time_correction_fits w) = Z.to_nat NUM_CHANNELS ∧
  time_correction_results w = (if write_raw then Some results else None) ∧
  ∀ write_raw',
    time_correction_fits <$>
      (time_correction_calculator sqrt params guess fit
         workspace run_min run_max write_raw').2
    = Some (time_correction_fits w).
Proof.
  intros Hc Hw.
  assert (Hn : (run_min ≤ run_max + 1)%Z).
  { unfold time_correction_calculator in Hw. cbn zeta in Hw.
    case_decide; [done | lia]. }
  rewrite (fit_table _ _ _ _ _ _ Hn Hc) in Hw. cbn [snd] in Hw.
  destruct (mapM _ _) as [fits|] eqn:Hm; [|done]. injection Hw as <-.
  cbn [time_correction_fits time_correction_results]. split_and!.
  - apply length_mapM in Hm. rewrite <- Hm. apply rows_length.
    by eapply collect_slices.
  - done.
  - intros write_raw'. rewrite (fit_table _ _ _ _ _ _ Hn Hc). cbn [snd].
    by rewrite Hm.
Qed.

(** A channel that is below the hit threshold in every run of the range,
    all of which have a file, has the row (0, 0) in the fit table: it is
    zeroed in every run, so its amplitudes sum to zero and it is
    skipped. *)
Theorem rare_channel_is_never_fitted
    workspace run_min run_max write_raw out results w pad :
  collect sqrt workspace (seqZ run_min (run_max - run_min + 1)) = (out, Some results) →
  (time_correction_calculator sqrt params guess fit
     workspace run_min run_max write_raw).2 = Some w →
  (pad < Z.to_nat NUM_CHANNELS)%nat →
  (∀ run, (run_min ≤ run ≤ run_max)%Z → ∃ f rr,
     workspace run = Some f ∧ run_results f = Some rr ∧
     (10 * Z.of_nat (hit_count (channel_row rr pad)) < num_events f)%Z) →
  time_correction_fits w !! pad = Some (Fin 0, Fin 0).
Proof.
  intros Hc Hw Hpad Hrare.
  rewrite (fits_lookup _ _ _ _ _ _ _ _ _ _ _ _ Hc Hw Hpad).
  unfold fit_pad. rewrite fsum_zeros; [done|].
  apply Forall_fmap. eapply Forall_impl.
  - eapply rare_pad_row; [exact Hc | exact Hpad |].
    intros run Hin%elem_of_seqZ. apply Hrare. lia.
  - by intros c ->.
Qed.

(** One failing fit aborts everything: once the cross-run table is
    built, if [guess] or [fit] raises on some channel that is not
    skipped, the calculation raises before anything is handed to
    [np.save] or [np.savetxt], whatever the other channels are: neither
    file is written and the fits of all the other channels are lost. *)
Theorem one_failed_fit_aborts
    workspace run_min run_max write_raw out results pad :
  (run_min ≤ run_max + 1)%Z →
  collect sqrt workspace (seqZ run_min (run_max - run_min + 1)) = (out, Some results) →
  (pad < Z.to_nat NUM_CHANNELS)%nat →
  fit_pad sqrt params guess fit (pad_row results pad) = None →
  (time_correction_calculator sqrt params guess fit
     workspace run_min run_max write_raw).2 = None.
Proof.
  intros Hn Hc Hlt Hfail. rewrite (fit_table _ _ _ _ _ _ Hn Hc). cbn [snd].
  pose proof (collect_slices _ _ _ _ _ Hc) as Hsl.
  assert (Hm : mapM (fit_pad sqrt params guess fit)
                 (rows (Z.to_nat NUM_CHANNELS) results) = None).
  { apply mapM_None, Exists_exists. exists (pad_row results pad).
    split; [|done]. eapply list_elem_of_lookup_2.
    apply (rows_lookup (Fin 0, Fin 0, Fin 0) _ _ _ Hsl Hlt). }
  by rewrite Hm.
Qed.

End WithFit.

Lemma missing_run_is_printed_and_poisons_witness :
  ∃ out results,
    collect sqrt6 only_373 (seqZ 373 (374 - 373 + 1)) = (out, Some results) ∧
    374%Z ∈ out ∧
    results !! Z.to_nat (374 - 373)
      = Some (replicate (Z.to_nat NUM_CHANNELS) (NaN, NaN, NaN)) ∧
    ∀ pad, (pad < Z.to_nat NUM_CHANNELS)%nat →
           feq0 (fsum (amp_col <$> pad_row results pad)) = false.
Proof.
  assert (∃ out results,
            collect sqrt6 only_373 (seqZ 373 (374 - 373 + 1)) = (out, Some results))
    as (out & results & Hc) by (eexists _, _; vm_compute; reflexivity).
  exists out, results. split; [exact Hc|].
  apply (missing_run_is_printed_and_poisons sqrt6 only_373 373 374 out results 374 Hc);
    [lia | reflexivity].
Defined.

Lemma every_run_gets_a_slice_witness :
  ∃ out results,
    collect sqrt6 only_373 (seqZ 373 (374 - 373 + 1)) = (out, Some results) ∧
    length results = Z.to_nat (374 - 373 + 1) ∧
    Forall (fun slice => length slice = Z.to_nat NUM_CHANNELS) results ∧
    out = filter (fun run => missing only_373 run = true)
                 (seqZ 373 (374 - 373 + 1)).
Proof.
  assert (∃ out results,
            collect sqrt6 only_373 (seqZ 373 (374 - 373 + 1)) = (out, Some results))
    as (out & results & Hc) by (eexists _, _; vm_compute; reflexivity).
  exists out, results. split; [exact Hc|].
  exact (every_run_gets_a_slice sqrt6 only_373 373 374 out results Hc).
Defined.

Lemma empty_range_witness :
  time_correction_calculator sqrt6 unit line_guess line_fit every_run 373 372 true
  = ([],
     if decide (372 = 373 - 1)%Z
     then Some (Written (replicate (Z.to_nat NUM_CHANNELS) (Fin 0, Fin 0))
                        (Some []))
     else None).
Proof.
  apply (empty_range sqrt6 unit line_guess line_fit every_run 373 372 true). lia.
Defined.

Lemma written_tables_witness :
  ∃ results w,
    collect sqrt6 every_run (seqZ 373 (374 - 373 + 1)) = ([], Some results) ∧
    (time_correction_calculator sqrt6 unit line_guess line_fit
       every_run 373 374 true).2 = Some w ∧
    length (time_correction_fits w) = Z.to_nat NUM_CHANNELS ∧
    time_correction_results w = Some results ∧
    ∀ write_raw',
      time_correction_fits <$>
        (time_correction_calculator sqrt6 unit line_guess line_fit
           every_run 373 374 write_raw').2
      = Some (time_correction_fits w).
Proof.
  assert (∃ results,
            collect sqrt6 every_run (seqZ 373 (374 - 373 + 1)) = ([], Some results))
    as (results & Hc) by (eexists; vm_compute; reflexivity).
  assert (∃ w, (time_correction_calculator sqrt6 unit line_guess line_fit
                  every_run 373 374 true).2 = Some w) as (w & Hw)
    by (eexists; vm_compute; reflexivity).
  exists results, w. split; [exact Hc|]. split; [exact Hw|].
  exact (written_tables sqrt6 unit line_guess line_fit every_run 373 374 true
           [] results w Hc Hw).
Defined.

Lemma rare_channel_is_never_fitted_witness :
  ∃ w, (time_correction_calculator sqrt6 unit line_guess line_fit
          every_run 373 374 true).2 = Some w ∧
       time_correction_fits w !! 1%nat = Some (Fin 0, Fin 0).
Proof.
  assert (∃ results,
            collect sqrt6 every_run (seqZ 373 (374 - 373 + 1)) = ([], Some results))
    as (results & Hc) by (eexists; vm_compute; reflexivity).
  assert (∃ w, (time_correction_calculator sqrt6 unit line_guess line_fit
                  every_run 373 374 true).2 = Some w) as (w & Hw)
    by (eexists; vm_compute; reflexivity).
  assert (∃ rr, run_results steady_run = Some rr ∧
                (10 * Z.of_nat (hit_count (channel_row rr 1))
                 < num_events steady_run)%Z)
    as (rr & Hrr & Hlow) by (eexists; split; vm_compute; reflexivity).
  exists w. split; [exact Hw|].
  apply (rare_channel_is_never_fitted sqrt6 unit line_guess line_fit
           every_run 373 374 true [] results w 1 Hc Hw).
  - unfold NUM_CHANNELS. lia.
  - intros run _. exists steady_run, rr. split; [reflexivity|]. by split.
Defined.

Lemma one_failed_fit_aborts_witness :
  ∃ results,
    collect sqrt6 only_373 (seqZ 373 (374 - 373 + 1)) = ([374%Z], Some results) ∧
    fit_pad sqrt6 unit line_guess line_fit (pad_row results 0) = None ∧
    (time_correction_calculator sqrt6 unit line_guess line_fit
       only_373 373 374 true).2 = None.
Proof.
  assert (∃ results,
            collect sqrt6 only_373 (seqZ 373 (374 - 373 + 1))
            = ([374%Z], Some results) ∧
            fit_pad sqrt6 unit line_guess line_fit (pad_row results 0) = None)
    as (results & Hc & Hfail) by (eexists; split; vm_compute; reflexivity).
  exists results. split; [exact Hc|]. split; [exact Hfail|].
  apply (one_failed_fit_aborts sqrt6 unit line_guess line_fit
           only_373 373 374 true [374%Z] results 0); [lia | exact Hc | | exact Hfail].
  unfold NUM_CHANNELS. lia.
Defined.

End CalibratorMore.

(** ** Simulation utilities: line shape and excitation energy *)

Module ShapeFacts.
Import Aggregator Calibrator WeightFacts Simulation.

Lemma Qsquare (x : Q) : (x ^ 2 == x * x)%Q.
Proof. reflexivity. Qed.

Lemma Qsquare_zero (x : Q) : (x * x == 0)%Q → (x == 0)%Q.
Proof. intros H. by destruct (Qmult_integral _ _ H). Qed.

Lemma Qsquare_nonneg (x : Q) : (0 <= x * x)%Q.
Proof.
  destruct (Qlt_le_dec x 0) as [H|H].
  - assert (E : (x * x == (- x) * (- x))%Q) by ring.
    rewrite E. apply Qmult_le_0_compat; lra.
  - by apply Qmult_le_0_compat.
Qed.

Lemma two_squares (x y : Q) :
  (0 <= x)%Q → (0 <= y)%Q →
  ((x + y / 4 == 0)%Q → (x == 0)%Q ∧ (y == 0)%Q) ∧
  (¬ (x + y / 4 == 0)%Q → (0 < x + y / 4)%Q).
Proof.
  intros Hx Hy. assert (E : (y / 4 == y * (1 # 4))%Q) by field.
  rewrite E. split.
  - intros H. split; lra.
  - intros H. apply Qle_lteq in Hx as [Hx|Hx]; [lra|].
    apply Qle_lteq in Hy as [Hy|Hy]; [lra|]. exfalso. apply H. lra.
Qed.

(** The denominator vanishes only at the centre of a state without
    width. *)
Lemma denominator_zero (Ei gamma point : Q) :
  ((point - Ei) ^ 2 + gamma ^ 2 / 4 == 0)%Q ↔ (point == Ei)%Q ∧ (gamma == 0)%Q.
Proof.
  rewrite !Qsquare. split.
  - intros H.
    pose proof (Qsquare_nonneg (point - Ei)) as Ha.
    pose proof (Qsquare_nonneg gamma) as Hg.
    destruct (two_squares _ _ Ha Hg) as [H0 _].
    destruct (H0 H) as [H1 H2].
    apply Qsquare_zero in H1, H2. split; [lra | done].
  - intros [H1 H2]. rewrite H1, H2. field.
Qed.

Lemma denominator_pos (Ei gamma point : Q) :
  ¬ ((point - Ei) ^ 2 + gamma ^ 2 / 4 == 0)%Q →
  (0 < (point - Ei) ^ 2 + gamma ^ 2 / 4)%Q.
Proof.
  rewrite !Qsquare. intros H.
  pose proof (Qsquare_nonneg (point - Ei)) as Ha.
  pose proof (Qsquare_nonneg gamma) as Hg.
  destruct (two_squares _ _ Ha Hg) as [_ Hpos]. by apply Hpos.
Qed.

Lemma denominator_eq (Ei gamma point : Q) :
  ((point - Ei) ^ 2 + gamma ^ 2 / 4
   == (point - Ei) * (point - Ei) + gamma * gamma * (1 # 4))%Q.
Proof. rewrite !Qsquare. field. Qed.

Lemma reciprocal_le (d1 d2 : Q) :
  (0 < d1)%Q → (d1 <= d2)%Q → (1 / d2 <= 1 / d1)%Q.
Proof.
  intros H1 H12. apply Qle_shift_div_l; [done|].
  assert (E : (1 / d2 * d1 == d1 / d2)%Q) by (field; lra).
  rewrite E. apply Qle_shift_div_r; lra.
Qed.

Lemma Qabs_square_le (a b : Q) : (Qabs a <= Qabs b)%Q → (a * a <= b * b)%Q.
Proof.
  intros Hab.
  pose proof (Qabs_nonneg a). pose proof (Qabs_nonneg b).
  assert (Ea : (a * a == Qabs a * Qabs a)%Q) by (apply Qabs_case; intros; ring).
  assert (Eb : (b * b == Qabs b * Qabs b)%Q) by (apply Qabs_case; intros; ring).
  rewrite Ea, Eb. nra.
Qed.

Lemma state_value_Some (Ei gamma point v : Q) :
  state_value Ei gamma point = Some v ↔
  ¬ ((point == Ei)%Q ∧ (gamma == 0)%Q) ∧
  v = (1 / ((point - Ei) ^ 2 + gamma ^ 2 / 4))%Q.
Proof.
  unfold state_value. cbn zeta. rewrite <- denominator_zero.
  destruct (Qeq_bool _ 0) eqn:E.
  - apply Qeq_bool_iff in E. split; [done | by intros [? _]].
  - apply Qeq_bool_false_iff in E. split; [by intros [= <-] | by intros [_ ->]].
Qed.

Lemma state_shape_lookup points Ei gamma prob (i : nat) p :
  state_shape points Ei gamma = Some prob → points !! i = Some p →
  ∃ v, prob !! i = Some v ∧ state_value Ei gamma p = Some v.
Proof.
  intros H Hp. apply mapM_Some in H.
  destruct (Forall2_lookup_l _ _ _ _ _ H Hp) as (v & ? & ?). eauto.
Qed.

End ShapeFacts.

Module ShapeMore.
Import Aggregator Calibrator WeightFacts Simulation ShapeFacts Samples.

(** [state_shape] raises (a division by zero) exactly when the width is
    zero and one of the points is the state's energy itself; otherwise it
    returns one value per point. *)
Theorem state_shape_raises_iff (points : list Q) (Ei gamma : Q) :
  (state_shape points Ei gamma = None ↔
   (gamma == 0)%Q ∧ ∃ p, p ∈ points ∧ (p == Ei)%Q) ∧
  ∀ prob, state_shape points Ei gamma = Some prob → length prob = length points.
Proof.
  split.
  - unfold state_shape. rewrite mapM_None, Exists_exists. split.
    + intros (p & Hin & Hp). unfold state_value in Hp. cbn zeta in Hp.
      destruct (Qeq_bool _ 0) eqn:E; [|done].
      apply Qeq_bool_iff, denominator_zero in E as [? ?]. eauto.
    + intros (Hg & p & Hin & Hp). exists p. split; [done|].
      unfold state_value. cbn zeta.
      by rewrite (proj2 (Qeq_bool_iff _ 0) (proj2 (denominator_zero _ _ _) (conj Hp Hg))).
  - intros prob H. symmetry. by eapply length_mapM.
Qed.

(** Every value of the shape is positive.  For a state with a width it
    is at most [4 / gamma**2], the value at the state's energy, and a
    point at least as far from the state's energy as another gets at most
    the value of the other: the shape peaks at [Ei], is symmetric about it
    and falls off on both sides. *)
Theorem state_shape_peaks_at_Ei (points : list Q) (Ei gamma : Q) prob :
  state_shape points Ei gamma = Some prob →
  ∀ (i : nat) p v, points !! i = Some p → prob !! i = Some v →
    (0 < v)%Q ∧
    (¬ (gamma == 0)%Q → (v <= 4 / gamma ^ 2)%Q ∧
                        ((p == Ei)%Q → (v == 4 / gamma ^ 2)%Q)) ∧
    ∀ (j : nat) q u, points !! j = Some q → prob !! j = Some u →
      (Qabs (p - Ei) <= Qabs (q - Ei))%Q → (u <= v)%Q.
Proof.
  intros H i p v Hp Hv.
  destruct (state_shape_lookup _ _ _ _ _ _ H Hp) as (v' & Hv' & Hval).
  rewrite Hv in Hv'. injection Hv' as <-.
  apply state_value_Some in Hval as [Hne ->].
  assert (Hd : (0 < (p - Ei) ^ 2 + gamma ^ 2 / 4)%Q).
  { apply denominator_pos. by rewrite denominator_zero. }
  split_and!.
  - apply Qlt_shift_div_l; [done | lra].
  - intros Hg.
    assert (Hg2 : (0 < gamma * gamma * (1 # 4))%Q).
    { pose proof (Qsquare_nonneg gamma) as Hn.
      assert (¬ (gamma * gamma == 0)%Q)
        by (intros E; by apply Qsquare_zero in E).
      apply Qle_lteq in Hn as [Hn|Hn]; [lra|]. exfalso. by symmetry in Hn. }
    assert (Epeak : (4 / gamma ^ 2 == 1 / (gamma * gamma * (1 # 4)))%Q).
    { rewrite Qsquare. field. intros E. rewrite E in Hg2. lra. }
    rewrite Epeak. split.
    + apply reciprocal_le; [done|]. rewrite denominator_eq.
      pose proof (Qsquare_nonneg (p - Ei)). lra.
    + intros E. rewrite denominator_eq, E. field. split; [done|].
      intros E0.
      assert (E1 : ((Ei - Ei) * (Ei - Ei) + gamma * gamma * (1 # 4)
                    == gamma * gamma * (1 # 4))%Q) by ring.
      rewrite E1 in E0. rewrite E0 in Hg2. lra.
  - intros j q u Hq Hu Hfar.
    destruct (state_shape_lookup _ _ _ _ _ _ H Hq) as (u' & Hu' & Hval).
    rewrite Hu in Hu'. injection Hu' as <-.
    apply state_value_Some in Hval as [Hne' ->].
    apply reciprocal_le; [done|]. rewrite !denominator_eq.
    apply Qabs_square_le in Hfar. lra.
Qed.

Lemma state_shape_peaks_at_Ei_witness :
  ∃ prob, state_shape [3; 5; 8]%Q 5 2 = Some prob ∧
  ∀ (i : nat) p v, [3; 5; 8]%Q !! i = Some p → prob !! i = Some v →
    (0 < v)%Q ∧
    (¬ (2 == 0)%Q → (v <= 4 / 2 ^ 2)%Q ∧
                    ((p == 5)%Q → (v == 4 / 2 ^ 2)%Q)) ∧
    ∀ (j : nat) q u, [3; 5; 8]%Q !! j = Some q → prob !! j = Some u →
      (Qabs (p - 5) <= Qabs (q - 5))%Q → (u <= v)%Q.
Proof.
  assert (∃ prob, state_shape [3; 5; 8]%Q 5 2 = Some prob) as [prob Hp]
    by (eexists; vm_compute; reflexivity).
  exists prob. split; [exact Hp|].
  exact (state_shape_peaks_at_Ei [3; 5; 8]%Q 5 2 prob Hp).
Defined.

(** [gamma] is the full width at half maximum: half a width away from
    the state's energy, on either side, the shape has half its peak
    value. *)
Theorem gamma_is_the_full_width_at_half_maximum (Ei gamma : Q) :
  ¬ (gamma == 0)%Q →
  ∃ peak left right,
    state_shape [Ei; Ei - gamma / 2; Ei + gamma / 2]%Q Ei gamma
      = Some [peak; left; right] ∧
    (left == peak / 2)%Q ∧ (right == peak / 2)%Q.
Proof.
  intros Hg.
  assert (Hv : ∀ p, ∃ v, state_value Ei gamma p = Some v ∧
            v = (1 / ((p - Ei) ^ 2 + gamma ^ 2 / 4))%Q).
  { intros p. eexists. split; [|done]. apply state_value_Some. split; [|done].
    by intros [_ ?]. }
  destruct (Hv Ei) as (peak & H0 & E0).
  destruct (Hv (Ei - gamma / 2)%Q) as (left & H1 & E1).
  destruct (Hv (Ei + gamma / 2)%Q) as (right & H2 & E2).
  exists peak, left, right. split.
  - unfold state_shape. cbn [mapM]. rewrite H0, H1, H2. reflexivity.
  - rewrite E0, E1, E2, !Qsquare.
    assert (D0 : ((Ei - Ei) * (Ei - Ei) + gamma * gamma / 4
                  == gamma * gamma * (1 # 4))%Q) by field.
    assert (D1 : ((Ei - gamma / 2 - Ei) * (Ei - gamma / 2 - Ei) + gamma * gamma / 4
                  == gamma * gamma * (1 # 2))%Q) by field.
    assert (D2 : ((Ei + gamma / 2 - Ei) * (Ei + gamma / 2 - Ei) + gamma * gamma / 4
                  == gamma * gamma * (1 # 2))%Q) by field.
    rewrite D0, D1, D2. split; field; done.
Qed.

Lemma gamma_is_the_full_width_at_half_maximum_witness :
  ∃ peak left right,
    state_shape [5; 5 - 2 / 2; 5 + 2 / 2]%Q 5 2 = Some [peak; left; right] ∧
    (left == peak / 2)%Q ∧ (right == peak / 2)%Q.
Proof. apply (gamma_is_the_full_width_at_half_maximum 5 2). discriminate. Defined.

End ShapeMore.

(** ** Simulation utilities: maximum excitation energy *)

Module ExcitationMore.
Import Aggregator Calibrator WeightFacts Simulation ShapeFacts Samples SampleReaction.

Lemma radicand_eq (M beam target beam_energy : Q) :
  (radicand M beam target beam_energy
   == 4 * ((beam + target) * (beam + target) + 2 * target * beam_energy))%Q.
Proof. unfold radicand. cbn zeta. rewrite !Qsquare. ring. Qed.

Lemma square_lt (a b : Q) : (0 <= b)%Q → (b < a)%Q → (b * b < a * a)%Q.
Proof.
  intros Hb Hab.
  assert (H : (0 < (a - b) * (a + b))%Q) by (apply Qmult_lt_0_compat; lra).
  assert (E : ((a - b) * (a + b) == a * a - b * b)%Q) by ring.
  rewrite E in H. lra.
Qed.

Lemma square_le_iff (a b : Q) :
  (0 <= a)%Q → (0 <= b)%Q → (a <= b)%Q ↔ (a * a <= b * b)%Q.
Proof.
  intros Ha Hb. split.
  - intros Hab. apply Qle_lteq in Hab as [Hab|Hab].
    + apply Qlt_le_weak. by apply square_lt.
    + rewrite Hab. lra.
  - intros Hsq. destruct (Qlt_le_dec b a) as [Hlt|]; [|done].
    pose proof (square_lt _ _ Hb Hlt). lra.
Qed.

Section WithSqrt.
Variable sqrt : Q -> Q.

Lemma excitation_energy_value
    (reaction : gmap string entry) (beam_energy : Q)
    (products : list NucleusData) (beam target : NucleusData) :
  reaction !! "products"%string = Some (Many products) →
  reaction !! "beam"%string = Some (One beam) →
  reaction !! "target"%string = Some (One target) →
  (0 <= mass target)%Q → (0 <= beam_energy)%Q →
  let M := foldl (fun M nucleus => (M + mass nucleus)%Q) 0%Q products in
  (radicand M (mass beam) (mass target) beam_energy
   == 4 * ((mass beam + mass target) ^ 2 + 2 * mass target * beam_energy))%Q ∧
  (0 <= radicand M (mass beam) (mass target) beam_energy)%Q ∧
  max_reaction_excitation_energy sqrt reaction beam_energy
  = Some (Fin ((- (2 * M)
                + sqrt (radicand M (mass beam) (mass target) beam_energy))
               / 2 / 1)).
Proof.
  intros Hp Hb Ht Hmt HE M.
  assert (Hrad : (0 <= radicand M (mass beam) (mass target) beam_energy)%Q).
  { rewrite radicand_eq.
    pose proof (Qsquare_nonneg (mass beam + mass target)).
    pose proof (Qmult_le_0_compat _ _ Hmt HE). lra. }
  split_and!.
  - rewrite radicand_eq, Qsquare. reflexivity.
  - done.
  - unfold max_reaction_excitation_energy. rewrite Hp, Hb, Ht.
    cbn [many one mbind option_bind]. cbn zeta. fold M.
    change ((2 * M) ^ 2 - 4 * 1 *
            (M ^ 2 - (mass beam + mass target) ^ 2
             - 2 * mass target * beam_energy))%Q
      with (radicand M (mass beam) (mass target) beam_energy).
    unfold fsqrt.
    assert (Hlt : Qltb (radicand M (mass beam) (mass target) beam_energy) 0 = false).
    { destruct (Qltb _ 0) eqn:E; [|done]. apply Qltb_lt in E. lra. }
    by rewrite Hlt.
Qed.

(** With the three keys in place, a target mass and a beam energy that
    are not negative, the number under the square root does not depend on
    the products and is not negative, so that the result is a number and
    never nan: the root, minus the summed product masses taken twice,
    halved. *)
Theorem excitation_energy_is_a_number
    (reaction : gmap string entry) (beam_energy : Q)
    (products : list NucleusData) (beam target : NucleusData) :
  reaction !! "products"%string = Some (Many products) →
  reaction !! "beam"%string = Some (One beam) →
  reaction !! "target"%string = Some (One target) →
  (0 <= mass target)%Q → (0 <= beam_energy)%Q →
  let M := foldl (fun M nucleus => (M + mass nucleus)%Q) 0%Q products in
  (radicand M (mass beam) (mass target) beam_energy
   == 4 * ((mass beam + mass target) ^ 2 + 2 * mass target * beam_energy))%Q ∧
  (0 <= radicand M (mass beam) (mass target) beam_energy)%Q ∧
  max_reaction_excitation_energy sqrt reaction beam_energy
  = Some (Fin ((- (2 * M)
                + sqrt (radicand M (mass beam) (mass target) beam_energy))
               / 2 / 1)).
Proof. apply excitation_energy_value. Qed.

(** When the square root is exact on the number under it, the result
    [ex] solves the threshold condition it was derived from,
    [(ex + M)**2 = (beam + target)**2 + 2 * target * beam_energy]; it is
    the larger of the two solutions; and, for product masses that are not
    negative, it is not negative exactly when the beam is above the
    threshold of the reaction. *)
Theorem excitation_energy_solves_threshold
    (reaction : gmap string entry) (beam_energy : Q)
    (products : list NucleusData) (beam target : NucleusData) :
  reaction !! "products"%string = Some (Many products) →
  reaction !! "beam"%string = Some (One beam) →
  reaction !! "target"%string = Some (One target) →
  (0 <= mass target)%Q → (0 <= beam_energy)%Q →
  let M := foldl (fun M nucleus => (M + mass nucleus)%Q) 0%Q products in
  let s := ((mass beam + mass target) ^ 2 + 2 * mass target * beam_energy)%Q in
  let root := sqrt (radicand M (mass beam) (mass target) beam_energy) in
  (0 <= root)%Q →
  (root * root == radicand M (mass beam) (mass target) beam_energy)%Q →
  ∃ ex, max_reaction_excitation_energy sqrt reaction beam_energy = Some (Fin ex) ∧
        ((ex + M) ^ 2 == s)%Q ∧
        (∀ x, ((x + M) ^ 2 == s)%Q → (x <= ex)%Q) ∧
        ((0 <= M)%Q → ((0 <= ex)%Q ↔ (M ^ 2 <= s)%Q)).
Proof.
  intros Hp Hb Ht Hmt HE M s root Hroot Hexact.
  destruct (excitation_energy_value reaction beam_energy products
              beam target Hp Hb Ht Hmt HE) as (Hrad & Hnn & Hres).
  fold M in Hrad, Hnn, Hres. fold root in Hres.
  eexists. split; [exact Hres|].
  rewrite Hrad in Hexact. fold s in Hexact.
  set (ex := ((- (2 * M) + root) / 2 / 1)%Q).
  assert (Eex : (ex == root * (1 # 2) - M)%Q) by (unfold ex; field).
  assert (Hhalf : (root * (1 # 2) * (root * (1 # 2)) == s)%Q).
  { assert (E : (root * (1 # 2) * (root * (1 # 2)) == root * root * (1 # 4))%Q)
      by ring.
    rewrite E, Hexact. ring. }
  assert (Hnn' : (0 <= root * (1 # 2))%Q) by lra.
  revert Eex Hhalf Hnn'. generalize (root * (1 # 2))%Q. generalize ex.
  generalize s. generalize M. clear.
  intros m t ex b Eex Hhalf Hb. split_and!.
  - rewrite Qsquare, Eex, <- Hhalf. ring.
  - intros x Hx. rewrite Qsquare, <- Hhalf in Hx. rewrite Eex.
    destruct (Qlt_le_dec b (x + m)) as [Hgt|Hle]; [|lra].
    pose proof (square_lt _ _ Hb Hgt). lra.
  - intros HM. rewrite Qsquare, Eex, <- Hhalf, <- (square_le_iff _ _ HM Hb).
    split; intros; lra.
Qed.

End WithSqrt.

Lemma excitation_energy_is_a_number_witness :
  let M := foldl (fun M nucleus => (M + mass nucleus)%Q) 0%Q
             [Nucleus 1; Nucleus 1] in
  (radicand M 1 2 4 == 4 * ((1 + 2) ^ 2 + 2 * 2 * 4))%Q ∧
  (0 <= radicand M 1 2 4)%Q ∧
  max_reaction_excitation_energy sqrt6 sample_reaction 4
  = Some (Fin ((- (2 * M) + sqrt6 (radicand M 1 2 4)) / 2 / 1)).
Proof.
  apply (excitation_energy_is_a_number sqrt6 sample_reaction 4
           [Nucleus 1; Nucleus 1] (Nucleus 1) (Nucleus 2));
    [reflexivity | reflexivity | reflexivity | discriminate | discriminate].
Defined.

Lemma excitation_energy_solves_threshold_witness :
  let M := foldl (fun M nucleus => (M + mass nucleus)%Q) 0%Q
             [Nucleus 1; Nucleus 1] in
  let s := ((1 + 2) ^ 2 + 2 * 2 * 4)%Q in
  ∃ ex, max_reaction_excitation_energy sqrt6 sample_reaction 4 = Some (Fin ex) ∧
        ((ex + M) ^ 2 == s)%Q ∧
        (∀ x, ((x + M) ^ 2 == s)%Q → (x <= ex)%Q) ∧
        ((0 <= M)%Q → ((0 <= ex)%Q ↔ (M ^ 2 <= s)%Q)).
Proof.
  apply (excitation_energy_solves_threshold sqrt6 sample_reaction 4
           [Nucleus 1; Nucleus 1] (Nucleus 1) (Nucleus 2));
    [reflexivity | reflexivity | reflexivity | discriminate | discriminate
    | discriminate | reflexivity].
Defined.

End ExcitationMore.

(** ** Simulation utilities: the point-cloud writer *)

Module WriterFacts.
Import Simulation WriterSpec.

Section Facts.
Context {sim_cloud spyral_cloud pads response_t : Type}.
Variable convert_to_spyral :
  sim_cloud -> Q -> Q -> Q -> response_t -> pads -> Q -> spyral_cloud.
Variable st_size : @h5file spyral_cloud -> Z.
Abbreviation converted w data config centers :=
  (convert_to_spyral data
     (windows_edge (elec_params config)) (micromegas_edge (elec_params config))
     (det_length (det_params config)) (response w) centers
     (adc_threshold (elec_params config))).
Abbreviation writer := (@writer spyral_cloud response_t).
Abbreviation write := (write convert_to_spyral st_size).
Abbreviation writes := (writes convert_to_spyral st_size).

(** What a call of [write] that returns has done, file by file. *)
Lemma write_Done (w w' : writer) data config e :
  write w data config e = Done w' →
  ∃ centers file,
    pad_centers config = Some centers ∧
    directory w !! run_number w = Some file ∧
    clouds file !! e = None ∧
    let d := no_ic (Dataset (converted w data config centers) ∅) in
    let grown := H5File (cloud_attrs file)
                   (<[e := Dataset (converted w data config centers) ∅]>
                      (clouds file)) in
    response w' = response w ∧ max_file_size w' = max_file_size w ∧
    event_number_high w' = Some e ∧
    (∀ k, k ≠ run_number w → k ≠ run_number w' →
          directory w' !! k = directory w !! k) ∧
    if Qltb (max_file_size w) (inject_Z (st_size grown)) then
      run_number w' = (run_number w + 1)%Z ∧ event_number_low w' = e ∧
      directory w' !! run_number w' = Some (H5File ∅ ∅) ∧
      directory w' !! run_number w
        = Some (H5File (<["max_event"%string := e]>
                          (<["min_event"%string := event_number_low w]>
                             (cloud_attrs file)))
                       (<[e := d]> (clouds file)))
    else
      run_number w' = run_number w ∧ event_number_low w' = event_number_low w ∧
      directory w' !! run_number w
        = Some (H5File (cloud_attrs file) (<[e := d]> (clouds file))).
Proof.
  unfold Simulation.write. destruct (pad_centers config) as [pc|]; [|done].
  cbn [run_number directory response max_file_size event_number_low
       event_number_high].
  destruct (directory w !! run_number w) as [file|] eqn:Hfile; [|done].
  case_decide as Hdup; [done|].
  apply eq_None_not_Some in Hdup.
  intros H. exists pc, file.
  split; [done|]. split; [done|]. split; [done|]. cbn zeta.
  destruct (Qltb _ _) eqn:Hbig.
  - unfold set_number_of_events in H.
    cbn [run_number directory response max_file_size event_number_low
         event_number_high create_file] in H.
    rewrite lookup_insert_eq in H.
    cbn [run_number directory response max_file_size event_number_low
         event_number_high create_file cloud_attrs clouds] in H.
    injection H as <-.
    cbn [run_number directory response max_file_size event_number_low
         event_number_high].
    split_and!; try done.
    + intros k Hk Hk'. rewrite lookup_alter_ne by done.
      by rewrite !lookup_insert_ne by done.
    + rewrite lookup_alter_ne by lia. by rewrite lookup_insert_eq.
    + rewrite lookup_alter_eq, lookup_insert_ne by lia.
      rewrite lookup_insert_eq. cbn. f_equal. f_equal.
      by rewrite alter_insert_eq.
  - injection H as <-.
    cbn [run_number directory response max_file_size event_number_low
         event_number_high].
    split_and!; try done.
    + intros k Hk _. rewrite lookup_alter_ne by done.
      by rewrite lookup_insert_ne by done.
    + rewrite lookup_alter_eq, lookup_insert_eq. cbn. f_equal. f_equal.
      by rewrite alter_insert_eq.
Qed.

Lemma lower_bound_current (w : writer) :
  lower_bound w (run_number w) = Some (event_number_low w).
Proof. unfold lower_bound. by case_decide. Qed.

Lemma lower_bound_other (w : writer) k :
  k ≠ run_number w →
  lower_bound w k = directory w !! k ≫= fun f => cloud_attrs f !! "min_event"%string.
Proof. intros. unfold lower_bound. by case_decide. Qed.

Lemma init_chained (resp : response_t) max_size dir :
  chained (init resp max_size dir : writer).
Proof.
  unfold init, create_file, chained. cbn. split_and!; [lia | | done | intros; lia].
  eexists. by rewrite lookup_insert_eq.
Qed.

Lemma write_chained (w w' : writer) data config e :
  write w data config e = Done w' → chained w → chained w'.
Proof.
  intros Hw (Hrun & (cur & Hcur & Hattrs) & Hfirst & Hchain).
  destruct (write_Done _ _ _ _ _ Hw)
    as (pc & file & _ & Hfile & _ & _ & _ & _ & Hother & Hcase).
  cbn zeta in Hcase. rewrite Hcur in Hfile. injection Hfile as <-.
  destruct (Qltb _ _).
  - destruct Hcase as (Hr & Hlow & Hnew & Hold).
    assert (Hmin : ∀ k, k ≠ run_number w' →
              lower_bound w' k = lower_bound w k).
    { intros k Hk. rewrite (lower_bound_other w') by done.
      destruct (decide (k = run_number w)) as [->|Hne].
      - rewrite Hold, lower_bound_current. cbn.
        rewrite lookup_insert_ne by done. by rewrite Hattrs, lookup_insert_eq.
      - rewrite (lower_bound_other w) by done. by rewrite Hother. }
    split_and!.
    + lia.
    + eexists. by rewrite Hnew.
    + rewrite Hmin by lia. done.
    + intros k Hk. destruct (decide (k = run_number w)) as [->|Hne].
      * eexists _, _, _. rewrite Hold. split_and!; [done | | |].
        -- cbn. rewrite lookup_insert_ne by done. by rewrite lookup_insert_eq.
        -- cbn. by rewrite lookup_insert_eq.
        -- rewrite <- Hr, lower_bound_current. by rewrite Hlow.
      * destruct (Hchain k ltac:(lia)) as (f & lo & hi & Hf & Hlo & Hhi & Hnext).
        exists f, lo, hi. rewrite Hother by lia.
        split_and!; [done..|]. rewrite Hmin by lia. done.
  - destruct Hcase as (Hr & Hlow & Hold).
    assert (Hmin : ∀ k, lower_bound w' k = lower_bound w k).
    { intros k. destruct (decide (k = run_number w)) as [->|Hne].
      - rewrite <- Hr at 1. rewrite !lower_bound_current. by rewrite Hlow.
      - rewrite !lower_bound_other by lia. rewrite Hother by lia. done. }
    split_and!.
    + lia.
    + eexists. rewrite Hr, Hold. split; [done|]. done.
    + by rewrite Hmin.
    + intros k Hk. destruct (Hchain k ltac:(lia)) as (f & lo & hi & Hf & Hlo & Hhi & Hnext).
      exists f, lo, hi. rewrite Hother by lia.
      split_and!; [done..|]. by rewrite Hmin.
Qed.

Lemma no_ic_attrs (d : @dataset spyral_cloud) key :
  key ∈ ic_attrs → ds_attrs (no_ic d) !! key = Some (-1)%Q.
Proof.
  unfold no_ic, ic_attrs. cbn [ds_attrs foldl]. intros Hin.
  repeat (apply elem_of_cons in Hin as [-> | Hin];
          [by repeat (first [rewrite lookup_insert_eq | rewrite lookup_insert_ne by done])|]).
  by apply not_elem_of_nil in Hin.
Qed.

Lemma init_stamped (resp : response_t) max_size dir :
  stamped (init resp max_size dir : writer).
Proof.
  intros k f e d Hk Hf Hd. unfold init, create_file in *. cbn in *.
  assert (k = 1%Z) as -> by lia. rewrite lookup_insert_eq in Hf.
  injection Hf as <-. done.
Qed.

Lemma write_stamped (w w' : writer) data config e :
  write w data config e = Done w' → chained w → stamped w → stamped w'.
Proof.
  intros Hw (Hrun & _) Hst.
  destruct (write_Done _ _ _ _ _ Hw)
    as (pc & file & _ & Hfile & _ & _ & _ & _ & Hother & Hcase).
  cbn zeta in Hcase.
  assert (Hgrown : ∀ e' d,
            <[e := no_ic (Dataset (converted w data config pc) ∅)]>
              (clouds file) !! e' = Some d →
            ∀ key, key ∈ ic_attrs → ds_attrs d !! key = Some (-1)%Q).
  { intros e' d Hd key Hkey.
    destruct (decide (e' = e)) as [->|Hne].
    - rewrite lookup_insert_eq in Hd. injection Hd as <-. by apply no_ic_attrs.
    - rewrite lookup_insert_ne in Hd by done.
      eapply (Hst (run_number w)); [lia | exact Hfile | exact Hd | exact Hkey]. }
  intros k f e' d Hk Hf Hd key Hkey.
  destruct (Qltb _ _).
  - destruct Hcase as (Hr & Hlow & Hnew & Hold).
    destruct (decide (k = run_number w')) as [->|Hk'].
    { rewrite Hnew in Hf. injection Hf as <-. done. }
    destruct (decide (k = run_number w)) as [->|Hne].
    + rewrite Hold in Hf. injection Hf as <-. by eapply Hgrown.
    + rewrite Hother in Hf by done.
      eapply (Hst k); [lia | exact Hf | exact Hd | exact Hkey].
  - destruct Hcase as (Hr & Hlow & Hold).
    destruct (decide (k = run_number w)) as [->|Hne].
    + rewrite Hold in Hf. injection Hf as <-. by eapply Hgrown.
    + rewrite Hother in Hf by lia.
      eapply (Hst k); [lia | exact Hf | exact Hd | exact Hkey].
Qed.

Lemma init_ranged (resp : response_t) max_size dir :
  ranged (init resp max_size dir : writer).
Proof.
  unfold init, create_file, ranged. cbn. split_and!.
  - intros; lia.
  - intros f e. rewrite lookup_insert_eq. intros [= <-]. cbn.
    rewrite lookup_empty. by intros [? ?].
  - intros; lia.
Qed.

Lemma write_ranged (w w' : writer) data config e :
  write w data config e = Done w' →
  match event_number_high w with Some h => (h < e)%Z | None => True end →
  chained w → ranged w → ranged w'.
Proof.
  intros Hw Hasc (Hrun & (cur & Hcur & Hattrs) & _ & Hchain) (Hleft & Hnow & Hlow).
  destruct (write_Done _ _ _ _ _ Hw)
    as (pc & file & _ & Hfile & Hfresh & _ & _ & Hhigh & Hother & Hcase).
  cbn zeta in Hcase.
  assert (Hgrown : ∀ e', is_Some
            (<[e := no_ic (Dataset (converted w data config pc) ∅)]>
               (clouds file) !! e') →
            (e' ≤ e)%Z ∧ (1 < run_number w → event_number_low w < e')%Z).
  { intros e' He'. destruct (decide (e' = e)) as [->|Hne].
    - split; [lia|]. intros Hr.
      destruct (Hlow Hr) as (h & Hh & Hle). rewrite Hh in Hasc. lia.
    - rewrite lookup_insert_ne in He' by done.
      destruct (Hnow _ _ Hfile He') as [(h & Hh & Hle) Hgt].
      rewrite Hh in Hasc. split; [lia | done]. }
  rewrite Hcur in Hfile. injection Hfile as <-.
  destruct (Qltb _ _).
  - destruct Hcase as (Hr & Hlo & Hnew & Hold). split_and!.
    + intros k f lo hi Hk Hf Hmin Hmax.
      destruct (decide (k = run_number w)) as [->|Hne].
      * rewrite Hold in Hf. injection Hf as <-. cbn in Hmin, Hmax.
        rewrite lookup_insert_eq in Hmax. injection Hmax as <-.
        rewrite lookup_insert_ne in Hmin by done.
        rewrite lookup_insert_eq in Hmin. injection Hmin as <-.
        cbn. split; [by rewrite lookup_insert_eq|]. apply Hgrown.
      * rewrite Hother in Hf by lia. eapply Hleft; [|done..]. lia.
    + intros f e'. rewrite Hnew. intros [= <-]. cbn.
      rewrite lookup_empty. by intros [? ?].
    + intros _. exists e. split; [done | lia].
  - destruct Hcase as (Hr & Hlo & Hold). unfold ranged. rewrite Hr, Hlo.
    split_and!.
    + intros k f lo hi Hk Hf Hmin Hmax.
      rewrite Hother in Hf by lia. by eapply Hleft.
    + intros f e'. rewrite Hold. intros [= <-] He'. cbn in He'.
      destruct (Hgrown e' He') as [? ?]. split; [|done]. eauto.
    + intros Hgt. exists e. split; [done|].
      destruct (Hlow Hgt) as (h & Hh & Hle). rewrite Hh in Hasc. lia.
Qed.

(** The event numbers of a sequence of calls. *)
Lemma writes_invariants calls : ∀ (w w' : writer),
  writes w calls = Done w' → chained w → stamped w →
  (chained w' ∧ stamped w') ∧
  (ascending (event_number_high w) (snd <$> calls) → ranged w → ranged w').
Proof.
  induction calls as [|[[data config] e] calls IH]; intros w w' Hw Hc Hs.
  - cbn in Hw. injection Hw as <-. done.
  - cbn [Simulation.writes] in Hw.
    destruct (write w data config e) as [w1|] eqn:H1; [|done].
    pose proof (write_chained _ _ _ _ _ H1 Hc) as Hc1.
    pose proof (write_stamped _ _ _ _ _ H1 Hc Hs) as Hs1.
    destruct (IH _ _ Hw Hc1 Hs1) as [Hcs Hr]. split; [done|].
    rewrite fmap_cons. cbn [snd ascending]. intros [Hfirst Hrest] Hrg.
    apply Hr.
    + destruct (write_Done _ _ _ _ _ H1)
        as (_ & _ & _ & _ & _ & _ & _ & Hhigh & _). by rewrite Hhigh.
    + by eapply write_ranged.
Qed.

End Facts.

End WriterFacts.

Module WriterMore.
Import Simulation WriterSpec WriterFacts SampleWriter.

Section More.
Context {sim_cloud spyral_cloud pads response_t : Type}.
Variable convert_to_spyral :
  sim_cloud -> Q -> Q -> Q -> response_t -> pads -> Q -> spyral_cloud.
Variable st_size : @h5file spyral_cloud -> Z.
Abbreviation converted w data config centers :=
  (convert_to_spyral data
     (windows_edge (elec_params config)) (micromegas_edge (elec_params config))
     (det_length (det_params config)) (response w) centers
     (adc_threshold (elec_params config))).

(** [write] raises exactly when the configuration has no pad centres or
    the file being written already holds a cloud for the event number.
    In both cases no file is changed and no file is started; without pad
    centres the writer is left as it was, while a refused event number has
    already replaced [event_number_high]. *)
Theorem write_raises_iff
    (w : @writer spyral_cloud response_t) data config e file :
  directory w !! run_number w = Some file →
  ((∃ x w', write convert_to_spyral st_size w data config e = Raised x w') ↔
   pad_centers config = None ∨ is_Some (clouds file !! e)) ∧
  (pad_centers config = None →
   write convert_to_spyral st_size w data config e = Raised ValueError w) ∧
  ∀ x w', write convert_to_spyral st_size w data config e = Raised x w' →
    directory w' = directory w ∧ run_number w' = run_number w ∧
    event_number_low w' = event_number_low w ∧
    (x = DatasetExists → event_number_high w' = Some e).
Proof.
  intros Hfile. unfold write.
  destruct (pad_centers config) as [pc|] eqn:Hpc.
  2:{ split_and!.
      - split; [by left | eauto].
      - done.
      - by intros x w' [= <- <-]. }
  cbn [run_number directory response max_file_size event_number_low
       event_number_high].
  rewrite Hfile. case_decide as Hdup.
  { split_and!.
    - split; [by right | eauto].
    - done.
    - by intros x w' [= <- <-]. }
  split_and!.
  - split; [|by intros [?|?]]. intros (x & w' & Hx).
    exfalso. revert Hx. destruct (Qltb _ _).
    + unfold set_number_of_events.
      cbn [run_number directory response max_file_size event_number_low
           event_number_high].
      by rewrite lookup_insert_eq.
    + done.
  - done.
  - intros x w'. destruct (Qltb _ _).
    + unfold set_number_of_events.
      cbn [run_number directory response max_file_size event_number_low
           event_number_high].
      by rewrite lookup_insert_eq.
    + done.
Qed.

(** A call of [write] that returns has stored the converted cloud, with
    the six ion-chamber attributes at -1, under its event number in the
    file that was being written, next to the clouds that file had.  The
    files of other run numbers are left alone, except that a next file is
    started, empty, exactly when the grown file is larger than
    [max_file_size]; the grown file then gets the bounds
    [min_event = event_number_low] and [max_event =] the event just
    written, and that event number becomes the next [event_number_low]. *)
Theorem write_stores_one_cloud
    (w w' : @writer spyral_cloud response_t) data config e :
  write convert_to_spyral st_size w data config e = Done w' →
  ∃ centers file,
    pad_centers config = Some centers ∧
    directory w !! run_number w = Some file ∧
    clouds file !! e = None ∧
    let d := no_ic (Dataset (converted w data config centers) ∅) in
    let grown := H5File (cloud_attrs file)
                   (<[e := Dataset (converted w data config centers) ∅]>
                      (clouds file)) in
    response w' = response w ∧ max_file_size w' = max_file_size w ∧
    event_number_high w' = Some e ∧
    (∀ k, k ≠ run_number w → k ≠ run_number w' →
          directory w' !! k = directory w !! k) ∧
    if Qltb (max_file_size w) (inject_Z (st_size grown)) then
      run_number w' = (run_number w + 1)%Z ∧ event_number_low w' = e ∧
      directory w' !! run_number w' = Some (H5File ∅ ∅) ∧
      directory w' !! run_number w
        = Some (H5File (<["max_event"%string := e]>
                          (<["min_event"%string := event_number_low w]>
                             (cloud_attrs file)))
                       (<[e := d]> (clouds file)))
    else
      run_number w' = run_number w ∧ event_number_low w' = event_number_low w ∧
      directory w' !! run_number w
        = Some (H5File (cloud_attrs file) (<[e := d]> (clouds file))).
Proof. apply write_Done. Qed.

(** After any sequence of calls of [write] on a new writer, whatever the
    directory held before: the files of run numbers 1 to [run_number]
    exist; the one being written has no event bounds; each of the others
    has [min_event] and [max_event]; the first starts at event 0 and each
    later one starts at the [max_event] of the file before it; and every
    cloud in these files carries the six ion-chamber attributes at -1. *)
Theorem written_files_are_chained
    (resp : response_t) (max_size : Q) (dir : gmap Z h5file)
    (calls : list (sim_cloud * Config * Z)) (w : @writer spyral_cloud response_t) :
  writes convert_to_spyral st_size (init resp max_size dir) calls = Done w →
  chained w ∧ stamped w.
Proof.
  intros Hw.
  by destruct (writes_invariants convert_to_spyral st_size calls _ _ Hw
                 (init_chained _ _ _) (init_stamped _ _ _)) as [? _].
Qed.

(** When the event numbers handed to [write] increase strictly, the
    clouds of a file that has been left lie at event numbers up to its
    [max_event], which has a cloud; from the second file on they lie
    above its [min_event], so that the event [min_event] of such a file
    has no cloud in it. *)
Theorem clouds_lie_within_the_bounds
    (resp : response_t) (max_size : Q) (dir : gmap Z h5file)
    (calls : list (sim_cloud * Config * Z)) (w : @writer spyral_cloud response_t) :
  writes convert_to_spyral st_size (init resp max_size dir) calls = Done w →
  ascending None (snd <$> calls) →
  ranged w ∧
  ∀ k, (1 < k < run_number w)%Z →
    ∃ f lo, directory w !! k = Some f ∧
            cloud_attrs f !! "min_event"%string = Some lo ∧
            clouds f !! lo = None.
Proof.
  intros Hw Hasc.
  destruct (writes_invariants convert_to_spyral st_size calls _ _ Hw
              (init_chained _ _ _) (init_stamped _ _ _)) as [[Hc _] Hr].
  specialize (Hr Hasc (init_ranged _ _ _)). split; [done|].
  intros k Hk. destruct Hc as (_ & _ & _ & Hchain).
  destruct (Hchain k ltac:(lia)) as (f & lo & hi & Hf & Hlo & Hhi & _).
  exists f, lo. split_and!; [done..|].
  destruct Hr as (Hleft & _).
  destruct (Hleft k f lo hi ltac:(lia) Hf Hlo Hhi) as [_ Hin].
  apply eq_None_not_Some. intros Hsome.
  destruct (Hin lo Hsome) as [_ Hgt]. lia.
Qed.

End More.

Lemma write_raises_iff_witness :
  ((∃ x w', write sample_convert sample_size sample_writer 7%Z sample_config 0
            = Raised x w') ↔
   pad_centers sample_config = None ∨
   is_Some (clouds (H5File ∅ ∅ : @h5file Z) !! 0%Z)) ∧
  (pad_centers sample_config = None →
   write sample_convert sample_size sample_writer 7%Z sample_config 0
   = Raised ValueError sample_writer) ∧
  ∀ x w', write sample_convert sample_size sample_writer 7%Z sample_config 0
          = Raised x w' →
    directory w' = directory sample_writer ∧
    run_number w' = run_number sample_writer ∧
    event_number_low w' = event_number_low sample_writer ∧
    (x = DatasetExists → event_number_high w' = Some 0%Z).
Proof.
  apply (write_raises_iff sample_convert sample_size sample_writer 7%Z
           sample_config 0 (H5File ∅ ∅)).
  vm_compute. reflexivity.
Defined.

Lemma write_stores_one_cloud_witness :
  ∃ w', write sample_convert sample_size sample_writer 7%Z sample_config 0 = Done w' ∧
  ∃ centers file,
    pad_centers sample_config = Some centers ∧
    directory sample_writer !! run_number sample_writer = Some file ∧
    clouds file !! 0%Z = None ∧
    let d := no_ic (Dataset (sample_convert 7 0 0 1 (response sample_writer) centers 0) ∅) in
    let grown := H5File (cloud_attrs file)
                   (<[0%Z := Dataset (sample_convert 7 0 0 1 (response sample_writer) centers 0) ∅]>
                      (clouds file)) in
    response w' = response sample_writer ∧
    max_file_size w' = max_file_size sample_writer ∧
    event_number_high w' = Some 0%Z ∧
    (∀ k, k ≠ run_number sample_writer → k ≠ run_number w' →
          directory w' !! k = directory sample_writer !! k) ∧
    if Qltb (max_file_size sample_writer) (inject_Z (sample_size grown)) then
      run_number w' = (run_number sample_writer + 1)%Z ∧
      event_number_low w' = 0%Z ∧
      directory w' !! run_number w' = Some (H5File ∅ ∅) ∧
      directory w' !! run_number sample_writer
        = Some (H5File (<["max_event"%string := 0%Z]>
                          (<["min_event"%string := event_number_low sample_writer]>
                             (cloud_attrs file)))
                       (<[0%Z := d]> (clouds file)))
    else
      run_number w' = run_number sample_writer ∧
      event_number_low w' = event_number_low sample_writer ∧
      directory w' !! run_number sample_writer
        = Some (H5File (cloud_attrs file) (<[0%Z := d]> (clouds file))).
Proof.
  assert (∃ w', write sample_convert sample_size sample_writer 7%Z sample_config 0
                = Done w') as [w' Hw]
    by (eexists; vm_compute; reflexivity).
  exists w'. split; [exact Hw|].
  exact (write_stores_one_cloud sample_convert sample_size sample_writer w' 7%Z
           sample_config 0 Hw).
Defined.

Lemma written_files_are_chained_witness :
  ∃ w, writes sample_convert sample_size (init 0%Z 150 ∅) sample_calls = Done w ∧
       chained w ∧ stamped w.
Proof.
  assert (∃ w, writes sample_convert sample_size (init 0%Z 150 ∅) sample_calls
               = Done w) as [w Hw]
    by (eexists; vm_compute; reflexivity).
  exists w. split; [exact Hw|].
  exact (written_files_are_chained sample_convert sample_size 0%Z 150 ∅
           sample_calls w Hw).
Defined.

Lemma clouds_lie_within_the_bounds_witness :
  ∃ w, writes sample_convert sample_size (init 0%Z 150 ∅) sample_calls = Done w ∧
       ranged w ∧
       ∀ k, (1 < k < run_number w)%Z →
         ∃ f lo, directory w !! k = Some f ∧
                 cloud_attrs f !! "min_event"%string = Some lo ∧
                 clouds f !! lo = None.
Proof.
  assert (∃ w, writes sample_convert sample_size (init 0%Z 150 ∅) sample_calls
               = Done w) as [w Hw]
    by (eexists; vm_compute; reflexivity).
  exists w. split; [exact Hw|].
  apply (clouds_lie_within_the_bounds sample_convert sample_size 0%Z 150 ∅
           sample_calls w Hw).
  cbn. lia.
Defined.

End WriterMore.
